(** * REDasm: instruction model, printer and PE import walk

    A shallow embedding of
    - [redasm/redasm.h]                        (operands and instructions),
    - [redasm/plugins/processor/printer.cpp]   (the text printer),
    - [redasm/formats/pe/pe.h]                 (the import descriptor walk),
    followed by the properties proved about them.

    Fixed-width integers are values of [Z] with every conversion written
    out; pointers are [Z] with [NULL = 0]; [std::string] is [string];
    [std::vector] and [std::list] are [list]. *)

From Stdlib Require Import ZArith Lia Ascii String HexString.
From Stdlib Require Strings.Byte.
From Stdlib Require Import Init.Byte.
From stdpp Require Import base option list gmap strings.

Local Open Scope Z_scope.

(** ** Integer types of [redasm.h] *)

(** Conversion to an unsigned type of [bits] bits. *)
Definition to_unsigned (bits z : Z) : Z := z mod 2 ^ bits.

(** Conversion to a signed (two's complement) type of [bits] bits. *)
Definition to_signed (bits z : Z) : Z :=
  (z + 2 ^ (bits - 1)) mod 2 ^ bits - 2 ^ (bits - 1).

Definition to_u16 : Z -> Z := to_unsigned 16.
Definition to_u32 : Z -> Z := to_unsigned 32.
Definition to_u64 : Z -> Z := to_unsigned 64.
Definition to_s32 : Z -> Z := to_signed 32.
Definition to_s64 : Z -> Z := to_signed 64.

(** [operands.size()] is a [size_t]. *)
Definition size {A} (v : list A) : Z := Z.of_nat (length v).

Definition NULL : Z := 0.

(** [#define REGISTER_INVALID static_cast<s64>(-1)] *)
Definition REGISTER_INVALID : Z := -1.

Module InstructionTypes.
Definition None : Z := 0x00000000.
Definition Stop : Z := 0x00000001.
Definition Nop : Z := 0x00000002.
Definition Jump : Z := 0x00000004.
Definition Call : Z := 0x00000008.
Definition Invalid : Z := 0x10000000.
Definition Branch : Z := Z.lor Jump Call.
End InstructionTypes.

Module OperandTypes.
Definition None : Z := 0.
Definition Register : Z := 1.
Definition Immediate : Z := 2.
Definition Memory : Z := 3.
Definition Displacement : Z := 4.
End OperandTypes.

(** ** [struct RegisterOperand] *)
Module RegisterOperand.
Record t := mk { type : Z (* u32 *); r : Z (* register_t = s64 *) }.

(** [RegisterOperand(): type(0), r(REGISTER_INVALID)] *)
Definition default : t := mk 0 REGISTER_INVALID.
(** [RegisterOperand(u32 type, register_t r)] *)
Definition make (type r : Z) : t := mk (to_u32 type) r.
(** [RegisterOperand(register_t r): type(0), r(r)] *)
Definition of_register (r : Z) : t := mk 0 r.

Definition isValid (x : t) : bool := negb (r x =? REGISTER_INVALID).
End RegisterOperand.

(** ** [struct MemoryOperand] *)
Module MemoryOperand.
Record t := mk {
  base : RegisterOperand.t;
  index : RegisterOperand.t;
  scale : Z (* s32 *);
  displacement : Z (* s64 *) }.

(** [MemoryOperand(): scale(1), displacement(0)] *)
Definition default : t :=
  mk RegisterOperand.default RegisterOperand.default 1 0.

Definition displacementOnly (m : t) : bool :=
  negb (RegisterOperand.isValid (base m)) &&
  negb (RegisterOperand.isValid (index m)).
End MemoryOperand.

(** ** [struct Operand]

    The anonymous union of [s_value] and [u_value] is one 64-bit cell; the
    record keeps its unsigned reading and [s_value] is the signed reading of
    the same bits. *)
Module Operand.
Record t := mk {
  type : Z (* u32 *);
  pos : Z (* s32 *);
  reg : RegisterOperand.t;
  mem : MemoryOperand.t;
  u_value : Z (* u64 *) }.

Definition s_value (o : t) : Z := to_s64 (u_value o).

(** [Operand(): type(OperandTypes::None), pos(-1), u_value(0)] *)
Definition default : t :=
  mk OperandTypes.None (-1) RegisterOperand.default MemoryOperand.default 0.

(** The four constructors [Operand(u32 type, T value, s32 pos)], for [T]
    one of [s32], [u32], [s64], [u64]: [value] is widened to the 64-bit
    cell, and the [pos] argument is converted to [s32]. *)
Definition make (type value pos : Z) : t :=
  mk type (to_s32 pos) RegisterOperand.default MemoryOperand.default
     (to_u64 value).

Definition is_ (o : t) (ty : Z) : bool := type o =? ty.

Definition with_pos (p : Z) (o : t) : t :=
  mk (type o) p (reg o) (mem o) (u_value o).
Definition with_type (ty : Z) (o : t) : t :=
  mk ty (pos o) (reg o) (mem o) (u_value o).
Definition with_reg (x : RegisterOperand.t) (o : t) : t :=
  mk (type o) (pos o) x (mem o) (u_value o).
Definition with_mem (m : MemoryOperand.t) (o : t) : t :=
  mk (type o) (pos o) (reg o) m (u_value o).
End Operand.

(** ** [struct Instruction]

    [free] is a [std::function] taking the payload pointer, possibly
    empty: calling it is an effect on the rest of the program, a state of
    type [W].  [segment] and [userdata] are raw pointers. *)
Module Instruction.
Section World.
Context {W : Type}.

Record t := mk {
  free : option (Z -> W -> W);
  mnemonic : string;
  signature : string;
  operands : list Operand.t;
  comments : list string;
  address : Z (* address_t *);
  type : Z (* u32 *);
  size_ : Z (* u32 size *);
  segment : Z (* Segment* *);
  userdata : Z (* void* *) }.

(** [Instruction(): address(0), type(0), size(0), segment(NULL),
    userdata(NULL)] *)
Definition default : t :=
  mk None "" "" [] [] 0 0 0 NULL NULL.

Definition with_operands (ops : list Operand.t) (i : t) : t :=
  mk (free i) (mnemonic i) (signature i) ops (comments i) (address i)
     (type i) (size_ i) (segment i) (userdata i).
Definition with_type (ty : Z) (i : t) : t :=
  mk (free i) (mnemonic i) (signature i) (operands i) (comments i)
     (address i) ty (size_ i) (segment i) (userdata i).
Definition with_userdata (u : Z) (i : t) : t :=
  mk (free i) (mnemonic i) (signature i) (operands i) (comments i)
     (address i) (type i) (size_ i) (segment i) u.
Definition with_comments (c : list string) (i : t) : t :=
  mk (free i) (mnemonic i) (signature i) (operands i) c (address i)
     (type i) (size_ i) (segment i) (userdata i).
Definition with_mnemonic (m : string) (i : t) : t :=
  mk (free i) m (signature i) (operands i) (comments i) (address i)
     (type i) (size_ i) (segment i) (userdata i).
Definition with_free (f : option (Z -> W -> W)) (i : t) : t :=
  mk f (mnemonic i) (signature i) (operands i) (comments i) (address i)
     (type i) (size_ i) (segment i) (userdata i).

Definition is_ (i : t) (ty : Z) : bool := negb (Z.land (type i) ty =? 0).
Definition isInvalid (i : t) : bool := type i =? InstructionTypes.Invalid.
Definition endAddress (i : t) : Z := to_u64 (address i + size_ i).

(** [void reset() { type = 0; operands.clear();
                    if(free && userdata) { free(userdata); userdata = NULL; } }] *)
Definition reset (i : t) (w : W) : t * W :=
  let i := with_type 0 i in
  let i := with_operands [] i in
  match free i with
  | Some f =>
      if negb (userdata i =? NULL)
      then (with_userdata NULL i, f (userdata i) w)
      else (i, w)
  | None => (i, w)
  end.

(** [push_back] on the operand vector. *)
Definition push_back (o : Operand.t) (i : t) : t :=
  with_operands (operands i ++ [o]) i.

Definition cmt (s : string) (i : t) : t :=
  with_comments (comments i ++ [s]) i.

(** [op(Operand op) { op.pos = operands.size(); operands.push_back(op); }] *)
Definition op (o : Operand.t) (i : t) : t :=
  let o := Operand.with_pos (to_s32 (size (operands i))) o in
  push_back o i.

(** [mem(address_t v)] *)
Definition mem (v : Z) (i : t) : t :=
  push_back (Operand.make OperandTypes.Memory v (size (operands i))) i.

(** [imm(T v)], [v] a value of the integer type [T]. *)
Definition imm (v : Z) (i : t) : t :=
  push_back (Operand.make OperandTypes.Immediate v (size (operands i))) i.

(** [reg(register_t r, u64 type = 0)] *)
Definition reg (r : Z) (type : Z) (i : t) : t :=
  let o := Operand.default in
  let o := Operand.with_pos (to_s32 (size (operands i))) o in
  let o := Operand.with_type OperandTypes.Register o in
  let o := Operand.with_reg (RegisterOperand.make type r) o in
  push_back o i.

(** [disp(register_t base, register_t index, s32 scale, T displacement)] *)
Definition disp4 (base index scale displacement : Z) (i : t) : t :=
  let o := Operand.default in
  let o := Operand.with_pos (to_s32 (size (operands i))) o in
  let o := Operand.with_type OperandTypes.Displacement o in
  let o := Operand.with_mem
             (MemoryOperand.mk (RegisterOperand.of_register base)
                (RegisterOperand.of_register index) scale
                (to_s64 displacement)) o in
  push_back o i.

(** [disp(base, index, displacement) { return disp(base, index, 1, displacement); }] *)
Definition disp3 (base index displacement : Z) (i : t) : t :=
  disp4 base index 1 displacement i.

(** [disp(base, displacement) { return disp(base, REGISTER_INVALID, displacement); }] *)
Definition disp (base displacement : Z) (i : t) : t :=
  disp3 base REGISTER_INVALID displacement i.
End World.
Arguments t : clear implicits.
End Instruction.

(** ** Symbols and the symbol table *)

(** Modelled from the spec: the symbol kinds ([SymbolTypes], declared in a
    header that is not part of these sources); the spec names Import, Export
    and EntryPoint. *)
Module SymbolTypes.
Inductive t := Import | Export | EntryPoint.
End SymbolTypes.

(** Modelled from the spec: [struct Symbol] (name, address, kind); the
    printer reads only [name]. *)
Module Symbol.
Record t := mk { name : string; address : Z; type : SymbolTypes.t }.
End Symbol.

(** Modelled from the spec: the [SymbolTable] class is a mapping from address
    to symbol, one entry per address; [define] inserts or overwrites,
    [symbol] looks an address up and yields a null pointer ([None]) when
    nothing is defined there. *)
Module SymbolTable.
Abbreviation t := (gmap Z Symbol.t).

Definition symbol (st : t) (address : Z) : option Symbol.t := st !! address.

Definition define (address : Z) (name : string) (type : SymbolTypes.t)
    (st : t) : t :=
  <[address := Symbol.mk name address type]> st.
End SymbolTable.

(** ** [REDasm::hex]

    The template [REDasm::hex<T>] lives in [support/utils.h], outside these
    sources; the printer calls it at [s32] (scale), [s64] (signed immediate,
    displacement) and [u64] (direct address). *)
Class Hex := {
  hex_s32 : Z -> string;
  hex_s64 : Z -> string;
  hex_u64 : Z -> string }.

(** [std::string::empty] *)
Definition empty (s : string) : bool :=
  match s with EmptyString => true | String _ _ => false end.

(** [std::vector::empty] *)
Definition vempty {A} (v : list A) : bool :=
  match v with [] => true | _ :: _ => false end.

(** A pointer used as a condition: true when it is not null. *)
Definition non_null {A} (p : option A) : bool :=
  match p with Some _ => true | None => false end.

(** ** [class Printer] ([printer.cpp])

    An object is its symbol table together with its implementation of the
    pure virtual [reg]. *)
Module Printer.
Record t := mk {
  _symboltable : SymbolTable.t;
  reg : RegisterOperand.t -> string }.

Section Render.
Context {HX : Hex}.
Variable this : t.

(** [std::string Printer::mem(const MemoryOperand&) const] *)
Definition mem (memop : MemoryOperand.t) : string :=
  let s := "" in
  let s :=
    if RegisterOperand.isValid (MemoryOperand.base memop)
    then s +:+ reg this (MemoryOperand.base memop)
    else s in
  let s :=
    if RegisterOperand.isValid (MemoryOperand.index memop)
    then
      let s := if negb (empty s) then s +:+ " + " else s in
      let s := s +:+ reg this (MemoryOperand.index memop) in
      if 1 <? MemoryOperand.scale memop
      then s +:+ (" * " +:+ hex_s32 (MemoryOperand.scale memop))
      else s
    else s in
  let s :=
    if negb (MemoryOperand.displacement memop =? 0)
    then
      let symbol :=
        SymbolTable.symbol (_symboltable this)
          (to_u64 (MemoryOperand.displacement memop)) in
      let s :=
        if negb (empty s) &&
           ((0 <? MemoryOperand.displacement memop) || non_null symbol)
        then s +:+ " + "
        else s in
      s +:+ match symbol with
            | Some sym => Symbol.name sym
            | None => hex_s64 (MemoryOperand.displacement memop)
            end
    else s in
  if negb (empty s) then "[" +:+ s +:+ "]" else "".

(** The text of one operand in the loop of [Printer::out]; [None] is the
    [continue] branch. *)
Definition opstr (operand : Operand.t) : option string :=
  if Operand.is_ operand OperandTypes.Immediate ||
     Operand.is_ operand OperandTypes.Memory
  then
    let symbol :=
      SymbolTable.symbol (_symboltable this)
        (to_u64 (if Operand.is_ operand OperandTypes.Immediate
                 then Operand.s_value operand
                 else Operand.u_value operand)) in
    Some match symbol with
         | Some sym => Symbol.name sym
         | None =>
             if Operand.is_ operand OperandTypes.Immediate
             then hex_s64 (Operand.s_value operand)
             else hex_u64 (Operand.u_value operand)
         end
  else if Operand.is_ operand OperandTypes.Displacement
  then Some (mem (Operand.mem operand))
  else if Operand.is_ operand OperandTypes.Register
  then Some (reg this (Operand.reg operand))
  else None.

(** The [for] loop of [Printer::out]: [first] is [it == operands.begin()],
    [s] the text so far, [c] the state the callback acts on. *)
Fixpoint out_loop {C : Type} (opfunc : option (Operand.t -> string -> C -> C))
    (first : bool) (it : list Operand.t) (s : string) (c : C) : string * C :=
  match it with
  | [] => (s, c)
  | operand :: it' =>
      let s := if negb first then s +:+ ", " else s in
      match opstr operand with
      | Some text =>
          let c := match opfunc with
                   | Some f => f operand text c
                   | None => c
                   end in
          out_loop opfunc false it' (s +:+ text) c
      | None => out_loop opfunc false it' s c
      end
  end.

(** [std::string Printer::out(const InstructionPtr&, std::function<...> opfunc) const] *)
Definition out_with {W C : Type} (instruction : Instruction.t W)
    (opfunc : option (Operand.t -> string -> C -> C)) (c : C) : string * C :=
  let operands := Instruction.operands instruction in
  let s := Instruction.mnemonic instruction in
  let s := if negb (vempty operands) then s +:+ " " else s in
  out_loop opfunc true operands s c.

(** [std::string Printer::out(const InstructionPtr&) const]: the callback
    is a lambda with an empty body. *)
Definition out {W : Type} (instruction : Instruction.t W) : string :=
  fst (out_with instruction (Some (fun _ _ (c : unit) => c)) tt).
End Render.
End Printer.

(** ** The raw image

    The loaded file is a sequence of bytes; [pointer<T>(offset)] is the
    address [offset] bytes into it, so a pointer into the image is kept as
    that offset.  Reading outside the image is undefined behaviour in the
    source and [None] here. *)

(** Little-endian value of a run of bytes. *)
Fixpoint le_value (bs : list byte) : Z :=
  match bs with
  | [] => 0
  | b :: bs' => Z.of_N (Byte.to_N b) + 256 * le_value bs'
  end.

(** Reads an unsigned integer of [n] bytes at [offset]. *)
Definition read_le (raw : list byte) (offset : Z) (n : nat) : option Z :=
  if (offset <? 0) || (size raw <? offset + Z.of_nat n) then None
  else Some (le_value (take n (drop (Z.to_nat offset) raw))).

(** The characters up to the first NUL byte. *)
Fixpoint cstr (bs : list byte) : option string :=
  match bs with
  | [] => None
  | b :: bs' =>
      if (Byte.to_N b =? 0)%N then Some ""
      else String (ascii_of_byte b) <$> cstr bs'
  end.

(** [std::string] built from a [const char*] into the image. *)
Definition cstring_at (raw : list byte) (offset : Z) : option string :=
  if (offset <? 0) || (size raw <=? offset) then None
  else cstr (drop (Z.to_nat offset) raw).

(** [::tolower] in the C locale. *)
Definition tolower (c : ascii) : ascii :=
  let n := N_of_ascii c in
  if ((65 <=? n) && (n <=? 90))%N then ascii_of_N (n + 32) else c.

Fixpoint transform (f : ascii -> ascii) (s : string) : string :=
  match s with
  | EmptyString => EmptyString
  | String c s' => String (f c) (transform f s')
  end.

(** [s.find(pattern) != std::string::npos] *)
Definition found (pattern s : string) : bool :=
  non_null (String.index 0 pattern s).

(** ** [class PeFormat] ([pe.h]) *)

Module PeType.
Inductive t := None | VisualBasic | Borland.
End PeType.

(** [ImageImportDescriptor] is declared in [pe_headers.h], outside these
    sources: the import descriptor of the PE format, five 32-bit fields. *)
Module ImageImportDescriptor.
Record t := mk {
  OriginalFirstThunk : Z;
  TimeDateStamp : Z;
  ForwarderChain : Z;
  Name : Z;
  FirstThunk : Z }.
End ImageImportDescriptor.

(** The template parameter [THUNK]: the two thunk types of the PE format. *)
Inductive THUNK := ImageThunkData32 | ImageThunkData64.

Definition sizeof (T : THUNK) : Z :=
  match T with ImageThunkData32 => 4 | ImageThunkData64 => 8 end.

(** Conversion of an [int] to the unsigned type [THUNK] (usual arithmetic
    conversions of [&] and [^]). *)
Definition to_thunk (T : THUNK) (z : Z) : Z := to_unsigned (8 * sizeof T) z.

(** The external routines the walk calls, all outside these sources:
    [rvaToOffset] (defined in [pe.cpp]), the two [PEUtils::importName]
    overloads (by name and by ordinal) and [PEImports::importName], whose
    boolean result and output string are one [option]. *)
Class PeExternals := {
  rvaToOffset : Z -> Z;
  PEUtils_importName : string -> string -> string;
  PEUtils_importName_ordinal : string -> Z -> string;
  PEImports_importName : string -> Z -> option string }.

Module PeFormat.
(** The members the walk touches: the image, [_petype], [_imagebase], and
    the [defineSymbol] calls made so far, oldest first. *)
Record t := mk {
  rawformat : list byte;
  _petype : PeType.t;
  _imagebase : Z (* u64 *);
  defined : list Symbol.t }.

Definition with_petype (p : PeType.t) (this : t) : t :=
  mk (rawformat this) p (_imagebase this) (defined this).

(** Modelled from the spec: [defineSymbol(address, name, type)] of the
    format plugin base class records one definition in the symbol table;
    the calls are kept in order. *)
Definition defineSymbol (address : Z) (name : string) (type : SymbolTypes.t)
    (this : t) : t :=
  mk (rawformat this) (_petype this) (_imagebase this)
     (defined this ++ [Symbol.mk name address type]).

(** The symbol table the calls build: later definitions overwrite. *)
Definition symboltable (this : t) : SymbolTable.t :=
  foldl (fun st s => SymbolTable.define (Symbol.address s) (Symbol.name s)
                       (Symbol.type s) st) ∅ (defined this).

Section ReadDescriptor.
Context {EXT : PeExternals}.
Variable T : THUNK.
Variable ordinalflag : Z (* template argument of type int *).

(** [#define RVA_POINTER(type, rva) (pointer<type>(rvaToOffset(rva)))] *)
Definition RVA_POINTER (rva : Z) : Z := rvaToOffset rva.

(** [thunk[i]] *)
Definition thunk_at (this : t) (thunk i : Z) : option Z :=
  read_le (rawformat this) (thunk + i * sizeof T) (Z.to_nat (sizeof T)).

(** [u16 ordinal = (ordinalflag ^ thunk[i]);] for the thunk value [v]. *)
Definition ordinal (v : Z) : Z :=
  to_u16 (Z.lxor (to_thunk T ordinalflag) v).

(** The body of the loop up to [defineSymbol]: the import name for the
    thunk value [v]. *)
Definition importname_of (this : t) (descriptorname : string) (v : Z)
    : option string :=
  if Z.land v (to_thunk T ordinalflag) =? 0
  then
    let importbyname := RVA_POINTER v in
    (* [&importbyname->Name]: the name follows the 16-bit hint *)
    name ← cstring_at (rawformat this) (importbyname + 2);
    Some (PEUtils_importName descriptorname name)
  else
    let ordinal := ordinal v in
    match PEImports_importName descriptorname ordinal with
    | None => Some (PEUtils_importName_ordinal descriptorname ordinal)
    | Some importname => Some (PEUtils_importName descriptorname importname)
    end.

(** [_imagebase + (FirstThunk + (i * sizeof(THUNK)))], in [u64]
    ([size_t] is 64 bits wide). *)
Definition thunk_address (this : t) (d : ImageImportDescriptor.t) (i : Z) : Z :=
  to_u64 (_imagebase this +
          to_u64 (ImageImportDescriptor.FirstThunk d + to_u64 (i * sizeof T))).

(** [for(size_t i = 0; thunk[i]; i++) { ... }], from index [i] on.  Each
    turn reads one more thunk of the image, so [fuel] bounds the turns. *)
Fixpoint walk (fuel : nat) (thunk : Z) (descriptorname : string)
    (d : ImageImportDescriptor.t) (i : Z) (this : t) : option t :=
  match fuel with
  | O => None
  | S fuel' =>
      v ← thunk_at this thunk i;
      if v =? 0 then Some this
      else
        let address := thunk_address this d i in
        importname ← importname_of this descriptorname v;
        walk fuel' thunk descriptorname d (i + 1)
          (defineSymbol address importname SymbolTypes.Import this)
  end.

(** [template<typename THUNK, int ordinalflag>
     void PeFormat::readDescriptor(const ImageImportDescriptor&)] *)
Definition readDescriptor (importdescriptor : ImageImportDescriptor.t)
    (this : t) : option t :=
  let thunk :=
    RVA_POINTER
      (if negb (ImageImportDescriptor.OriginalFirstThunk importdescriptor =? 0)
       then ImageImportDescriptor.OriginalFirstThunk importdescriptor
       else ImageImportDescriptor.FirstThunk importdescriptor) in
  descriptorname ←
    cstring_at (rawformat this)
      (RVA_POINTER (ImageImportDescriptor.Name importdescriptor));
  let descriptorname := transform tolower descriptorname in
  let this :=
    if found "msvbvm" descriptorname
    then with_petype PeType.VisualBasic this
    else this in
  walk (S (length (rawformat this))) thunk descriptorname importdescriptor 0 this.
End ReadDescriptor.
End PeFormat.

(** ** Builder scripts and repeated resets *)

(** A call of one of the append operations of [Instruction]. *)
Module Builder.
Inductive call :=
| Op (o : Operand.t)
| Mem (v : Z)
| Imm (v : Z)
| Reg (r type : Z)
| Disp2 (base displacement : Z)
| Disp3 (base index displacement : Z)
| Disp4 (base index scale displacement : Z).

Definition run1 {W} (c : call) (i : Instruction.t W) : Instruction.t W :=
  match c with
  | Op o => Instruction.op o i
  | Mem v => Instruction.mem v i
  | Imm v => Instruction.imm v i
  | Reg r type => Instruction.reg r type i
  | Disp2 b d => Instruction.disp b d i
  | Disp3 b x d => Instruction.disp3 b x d i
  | Disp4 b x s d => Instruction.disp4 b x s d i
  end.

(** The calls of [cs] chained on [i], first call first. *)
Definition run {W} (cs : list call) (i : Instruction.t W) : Instruction.t W :=
  foldl (fun i c => run1 c i) i cs.
End Builder.

(** [n] calls of [reset] in a row, no payload assigned in between. *)
Fixpoint resets {W} (n : nat) (i : Instruction.t W) (w : W) : Instruction.t W * W :=
  match n with
  | O => (i, w)
  | S n' => let '(i', w') := Instruction.reset i w in resets n' i' w'
  end.

(** ** The printer as the specification words it

    Two definitions that follow the prose of the specification, to be
    compared with [Printer::mem] and [Printer::out]. *)

Section Claimed.
Context {HX : Hex}.
Variable this : Printer.t.

(** The name of the symbol at the displacement when there is one, the
    hexadecimal literal otherwise. *)
Definition displacement_text (memop : MemoryOperand.t) : string :=
  match SymbolTable.symbol (Printer._symboltable this)
          (to_u64 (MemoryOperand.displacement memop)) with
  | Some sym => Symbol.name sym
  | None => hex_s64 (MemoryOperand.displacement memop)
  end.

(** The index register, with the scale when it exceeds one. *)
Definition index_text (memop : MemoryOperand.t) : string :=
  Printer.reg this (MemoryOperand.index memop) +:+
  (if 1 <? MemoryOperand.scale memop
   then " * " +:+ hex_s32 (MemoryOperand.scale memop)
   else "").

(** The register terms that are present: base, then index. *)
Definition register_terms (memop : MemoryOperand.t) : list string :=
  (if RegisterOperand.isValid (MemoryOperand.base memop)
   then [Printer.reg this (MemoryOperand.base memop)] else []) ++
  (if RegisterOperand.isValid (MemoryOperand.index memop)
   then [index_text memop] else []).

(** The terms that are present: the register terms, then a non-zero
    displacement. *)
Definition mem_terms (memop : MemoryOperand.t) : list string :=
  register_terms memop ++
  (if MemoryOperand.displacement memop =? 0 then []
   else [displacement_text memop]).

(** The present terms joined by [" + "] between brackets; nothing at all
    when no term is present. *)
Definition mem_claimed (memop : MemoryOperand.t) : string :=
  match mem_terms memop with
  | [] => ""
  | terms => "[" +:+ String.concat " + " terms +:+ "]"
  end.

(** The mnemonic, then the texts of the renderable operands joined by
    [", "]; skipped operands leave no trace. *)
Definition out_claimed {W : Type} (instruction : Instruction.t W) : string :=
  match omap (Printer.opstr this) (Instruction.operands instruction) with
  | [] => Instruction.mnemonic instruction
  | texts => Instruction.mnemonic instruction +:+ " " +:+ String.concat ", " texts
  end.
End Claimed.

(** ** What the loop of [Printer::out] appends *)

Section Appended.
Context {HX : Hex}.
Variable this : Printer.t.

(** What an operand adds to the line: its text, or nothing when skipped. *)
Definition added (o : Operand.t) : string :=
  default "" (Printer.opstr this o).

(** The operands after the first: a separator each, then what they add. *)
Fixpoint rest_text (ops : list Operand.t) : string :=
  match ops with
  | [] => ""
  | o :: ops' => ", " +:+ added o +:+ rest_text ops'
  end.
End Appended.

(** ** What the import walk defines *)

Section Defines.
Context {EXT : PeExternals}.
Variable T : THUNK.
Variable ordinalflag : Z.
Implicit Types (this : PeFormat.t) (d : ImageImportDescriptor.t).

(** What [this] becomes when the definitions [news] are added. *)
Definition defining (news : list Symbol.t) this : PeFormat.t :=
  PeFormat.mk (PeFormat.rawformat this) (PeFormat._petype this)
    (PeFormat._imagebase this) (PeFormat.defined this ++ news).

(** The definition made for the thunk at index [i]: an Import at the
    address of slot [i] of the first-thunk table, named after the value read
    at slot [i] of the table at [thunk]. *)
Definition defines this (thunk : Z) (descriptorname : string) d (i : Z)
    (sym : Symbol.t) : Prop :=
  exists v,
    PeFormat.thunk_at T this thunk i = Some v /\ v <> 0 /\
    PeFormat.importname_of T ordinalflag this descriptorname v
      = Some (Symbol.name sym) /\
    Symbol.address sym = PeFormat.thunk_address T this d i /\
    Symbol.type sym = SymbolTypes.Import.

(** The table the walk reads its thunks from. *)
Definition selected_thunks d : Z :=
  if ImageImportDescriptor.OriginalFirstThunk d =? 0
  then ImageImportDescriptor.FirstThunk d
  else ImageImportDescriptor.OriginalFirstThunk d.
End Defines.

(** ** Sample data *)

Module Sample.
(** A stand-in for [REDasm::hex]: prefix [0x], a leading minus sign for
    negative values. *)
#[export] Instance hex : Hex :=
  {| hex_s32 := HexString.of_Z;
     hex_s64 := HexString.of_Z;
     hex_u64 := HexString.of_Z |}.

Definition EAX : Z := 19.
Definition EBX : Z := 21.
Definition ECX : Z := 22.

(** A stand-in for the backend's register names. *)
Definition reg_name (x : RegisterOperand.t) : string :=
  match RegisterOperand.r x with
  | 19 => "eax" | 21 => "ebx" | 22 => "ecx" | _ => "r?"
  end.

(** A printer with an empty symbol table. *)
Definition printer : Printer.t := Printer.mk ∅ reg_name.

(** A printer that knows one symbol. *)
Definition printer_myFunc : Printer.t :=
  Printer.mk (SymbolTable.define 0x401000 "myFunc" SymbolTypes.Import ∅) reg_name.

(** A release routine that records the payloads it was given. *)
Definition record_release (payload : Z) (log : list Z) : list Z :=
  log ++ [payload].

Definition mov : Instruction.t (list Z) :=
  Instruction.with_mnemonic "mov" Instruction.default.

(** An instruction with a payload and a release routine. *)
Definition with_payload : Instruction.t (list Z) :=
  Instruction.with_userdata 0x1000
    (Instruction.with_free (Some record_release)
       (Instruction.with_type InstructionTypes.Jump
          (Instruction.reg EAX 0 mov))).

(** An instruction with a payload and no release routine installed. *)
Definition payload_without_free : Instruction.t (list Z) :=
  Instruction.with_userdata 0x1000 (Instruction.reg EAX 0 mov).

(** Operands for the examples on [Printer::mem]. *)
Definition ebx_ecx4_0x10 : MemoryOperand.t :=
  MemoryOperand.mk (RegisterOperand.of_register EBX)
    (RegisterOperand.of_register ECX) 4 0x10.

Definition ebx_minus_0x10 : MemoryOperand.t :=
  MemoryOperand.mk (RegisterOperand.of_register EBX) RegisterOperand.default
    1 (-0x10).

(** [mov eax, [ebx + 0x10]], built with the append operations. *)
Definition mov_eax_ebx_0x10 : Instruction.t (list Z) :=
  Instruction.disp EBX 0x10 (Instruction.reg EAX 0 mov).

(** A register, an operand of type [None], a register. *)
Definition mov_eax_none_ebx : Instruction.t (list Z) :=
  Instruction.reg EBX 0
    (Instruction.op Operand.default (Instruction.reg EAX 0 mov)).

(** A single operand of type [None]. *)
Definition mov_none : Instruction.t (list Z) :=
  Instruction.op Operand.default mov.
End Sample.

(** Sample images for the import walk. *)
Module SampleImage.
(** The 32-bit ordinal flag of the PE headers, [0x80000000], as the [int]
    template argument it becomes. *)
Definition IMAGE_ORDINAL_FLAG32 : Z := to_signed 32 0x80000000.

(** A stand-in for the external routines: file offsets equal RVAs, names are
    written [dll!name] and [dll!#ordinal], the ordinal database is empty. *)
#[export] Instance externals : PeExternals :=
  {| rvaToOffset := fun rva => rva;
     PEUtils_importName := fun dll name => dll +:+ "!" +:+ name;
     PEUtils_importName_ordinal := fun dll ord => dll +:+ "!#" +:+ HexString.of_Z ord;
     PEImports_importName := fun _ _ => None |}.

Definition byte_of (z : Z) : byte :=
  default x00 (Byte.of_N (Z.to_N (z mod 256))).

(** [v] as [n] little-endian bytes. *)
Fixpoint le_bytes (n : nat) (v : Z) : list byte :=
  match n with
  | O => []
  | S n' => byte_of v :: le_bytes n' (v / 256)
  end.

Definition chars (s : string) : list byte := list_byte_of_string s.

(** Pads with zero bytes up to [size] bytes. *)
Definition padded (size : nat) (bs : list byte) : list byte :=
  bs ++ replicate (size - length bs) x00.

(** 32-bit image:
    - [0x00] the library name, [KERNEL32.dll];
    - [0x10] the original first thunks: a name at [0x30], ordinal 5, end;
    - [0x20] the first thunks: end at once;
    - [0x30] hint and name [ExitProcess]. *)
Definition image32 : list byte :=
  padded 0x10 (chars "KERNEL32.dll") ++
  padded 0x10 (le_bytes 4 0x30 ++ le_bytes 4 0x80000005 ++ le_bytes 4 0) ++
  padded 0x10 (le_bytes 4 0) ++
  padded 0x10 (le_bytes 2 0 ++ chars "ExitProcess").

(** The same tables with 64-bit thunks:
    - [0x00] the library name;
    - [0x10] the original first thunks: a name at [0x40], ordinal 5, end;
    - [0x30] the first thunks: end at once;
    - [0x40] hint and name. *)
Definition image64 : list byte :=
  padded 0x10 (chars "KERNEL32.dll") ++
  padded 0x20 (le_bytes 8 0x40 ++ le_bytes 8 0x8000000000000005 ++ le_bytes 8 0) ++
  padded 0x10 (le_bytes 8 0) ++
  padded 0x10 (le_bytes 2 0 ++ chars "ExitProcess").

Definition pe32 : PeFormat.t := PeFormat.mk image32 PeType.None 0x400000 [].
Definition pe64 : PeFormat.t := PeFormat.mk image64 PeType.None 0x140000000 [].

(** Both thunk tables present. *)
Definition descriptor32 : ImageImportDescriptor.t :=
  ImageImportDescriptor.mk 0x10 0 0 0x00 0x20.
Definition descriptor64 : ImageImportDescriptor.t :=
  ImageImportDescriptor.mk 0x10 0 0 0x00 0x30.

(** No original first thunks: the walk reads the first thunks. *)
Definition descriptor32_bound : ImageImportDescriptor.t :=
  ImageImportDescriptor.mk 0 0 0 0x00 0x10.

(** [pe32] after the walk over [descriptor32]. *)
Definition pe32_imports : PeFormat.t :=
  PeFormat.mk image32 PeType.None 0x400000
    [Symbol.mk "kernel32.dll!ExitProcess" 0x400020 SymbolTypes.Import;
     Symbol.mk "kernel32.dll!#0x5" 0x400024 SymbolTypes.Import].

(** An image importing from the Visual Basic runtime: the library name at
    [0x00], an empty thunk table at [0x10]. *)
Definition image_vb : list byte :=
  padded 0x10 (chars "MSVBVM60.DLL") ++ padded 0x10 (le_bytes 4 0).

Definition pe_vb : PeFormat.t := PeFormat.mk image_vb PeType.None 0x400000 [].

Definition descriptor_vb : ImageImportDescriptor.t :=
  ImageImportDescriptor.mk 0 0 0 0x00 0x10.
End SampleImage.

(** * The rest of [redasm.h] *)

(** ** [struct Segment] *)

Module SegmentTypes.
Definition None : Z := 0x00000000.
Definition Code : Z := 0x00000001.
Definition Data : Z := 0x00000002.
Definition Read : Z := 0x00000010.
Definition Write : Z := 0x00000020.
Definition Bss : Z := 0x00000040.
End SegmentTypes.

Module Segment.
Record t := mk {
  name : string;
  offset : Z (* offset_t *);
  address : Z (* address_t *);
  endaddress : Z (* address_t *);
  type : Z (* u32 *) }.

(** [Segment(): offset(0), address(0), endaddress(0), type(0)] *)
Definition default : t := mk "" 0 0 0 0.

(** [Segment(name, offset, address, size, flags): ...,
    endaddress(address + size), type(flags)]: the sum is an [u64] sum and
    the [u64] flags are narrowed to the [u32] member. *)
Definition make (name : string) (offset address size flags : Z) : t :=
  mk name offset address (to_u64 (address + size)) (to_u32 flags).

(** [u64 size() const { return endaddress - address; }] *)
Definition size (s : t) : Z := to_u64 (endaddress s - address s).

(** [bool contains(address_t address) const] *)
Definition contains (s : t) (a : Z) : bool :=
  (address s <=? a) && (a <? endaddress s).

(** [bool is(u32 t) const { return type & t; }] *)
Definition is_ (s : t) (ty : Z) : bool := negb (Z.land (type s) ty =? 0).
End Segment.

(** ** [struct Buffer]

    [data] points into some memory, a sequence of bytes in which a pointer
    is an index; pointer arithmetic is not wrapped (leaving the object is
    undefined in the source), and reading outside the memory is [None]. *)

(** [*p] for a byte pointer [p]. *)
Definition load (memory : list byte) (p : Z) : option byte :=
  if (p <? 0) || (Z.of_nat (length memory) <=? p) then None
  else memory !! Z.to_nat p.

Module Buffer.
Record t := mk { data : Z (* u8* *); length : Z (* u64 *) }.

(** [Buffer(): data(NULL), length(0)] *)
Definition default : t := mk NULL 0.

(** [Buffer operator +(u64 v) const
     { Buffer b(data, length); b.data += v; b.length -= v; return b; }] *)
Definition plus (b : t) (v : Z) : t :=
  let b' := mk (data b) (length b) in
  let b' := mk (data b' + v) (length b') in
  mk (data b') (to_u64 (length b' - v)).

(** [Buffer& operator +=(u64 v) { data += v; length -= v; return *this; }] *)
Definition plus_assign (b : t) (v : Z) : t :=
  let b := mk (data b + v) (length b) in
  mk (data b) (to_u64 (length b - v)).

(** [Buffer& operator++(int) { *this += 1; return *this; }] *)
Definition increment (b : t) : t := plus_assign b 1.

(** [u8 operator[](int index) const { return data[index]; }]: the argument
    is converted to [int]. *)
Definition at_ (memory : list byte) (b : t) (index : Z) : option byte :=
  load memory (data b + to_s32 index).

(** [u8 operator*() const { return *data; }] *)
Definition deref (memory : list byte) (b : t) : option byte :=
  load memory (data b).

(** [bool eob() const { return !length; }] *)
Definition eob (b : t) : bool := length b =? 0.
End Buffer.

(** [n] post-increments in a row. *)
Fixpoint increments (n : nat) (b : Buffer.t) : Buffer.t :=
  match n with
  | O => b
  | S n' => increments n' (Buffer.increment b)
  end.

(** ** [Instruction::~Instruction]

    [~Instruction() { reset(); }]: the object is gone afterwards, what is
    left is the effect of the release routine. *)
Definition destroy {W : Type} (i : Instruction.t W) (w : W) : W :=
  (Instruction.reset i w).2.

(** ** Rendered operands

    The operands [Printer::out] does not skip, each with its text, in
    order: the arguments of the calls of the callback. *)
Definition rendered {HX : Hex} (this : Printer.t) (operands : list Operand.t)
    : list (Operand.t * string) :=
  omap (fun o => pair o <$> Printer.opstr this o) operands.

(** The four operand types [Printer::out] renders. *)
Definition renderable (o : Operand.t) : bool :=
  Operand.is_ o OperandTypes.Register || Operand.is_ o OperandTypes.Immediate ||
  Operand.is_ o OperandTypes.Memory || Operand.is_ o OperandTypes.Displacement.

(** An append that cannot add an operand of another type: [op] is the only
    one that takes the type from its argument. *)
Definition typed_call (c : Builder.call) : bool :=
  match c with
  | Builder.Op o => renderable o
  | _ => true
  end.

(** More sample data. *)
Module SampleMore.
(** A code segment of [0x1000] bytes at [0x401000]. *)
Definition text : Segment.t :=
  Segment.make ".text" 0x400 0x401000 0x1000
    (Z.lor SegmentTypes.Code SegmentTypes.Read).

(** A segment whose end passes [2^64]. *)
Definition wrapping : Segment.t :=
  Segment.make ".high" 0 0xFFFFFFFFFFFFF000 0x2000 SegmentTypes.Data.

(** Eight bytes of memory and a buffer over all of them. *)
Definition memory : list byte := [x10; x11; x12; x13; x14; x15; x16; x17].
Definition whole : Buffer.t := Buffer.mk 0 8.

(** A callback that records its arguments. *)
Definition record_operand (o : Operand.t) (text : string)
    (log : list (Operand.t * string)) : list (Operand.t * string) :=
  log ++ [(o, text)].
End SampleMore.

(** The sample images after their walks. *)
Module SampleImports.
(** [pe32] after the walk over [descriptor32_bound], which has no original
    first thunks: the thunks at [0x10] are read, and the symbols are at the
    slots that were read. *)
Definition pe32_bound_imports : PeFormat.t :=
  PeFormat.mk SampleImage.image32 PeType.None 0x400000
    [Symbol.mk "kernel32.dll!ExitProcess" 0x400010 SymbolTypes.Import;
     Symbol.mk "kernel32.dll!#0x5" 0x400014 SymbolTypes.Import].

(** [pe64] after the walk over [descriptor64]: thunks read at [0x10], eight
    bytes apart, symbols at the slots of the table at [0x30]. *)
Definition pe64_imports : PeFormat.t :=
  PeFormat.mk SampleImage.image64 PeType.None 0x140000000
    [Symbol.mk "kernel32.dll!ExitProcess" 0x140000030 SymbolTypes.Import;
     Symbol.mk "kernel32.dll!#0x5" 0x140000038 SymbolTypes.Import].
End SampleImports.

(** * Properties *)

(** ** Integer conversions *)

Lemma to_s32_small (z : Z) : -2 ^ 31 <= z < 2 ^ 31 -> to_s32 z = z.
Proof.
  intros Hz. unfold to_s32, to_signed.
  change (2 ^ (32 - 1)) with (2 ^ 31).
  change (2 ^ 32) with (2 * 2 ^ 31).
  rewrite Z.mod_small; lia.
Qed.

Lemma to_unsigned_small (bits z : Z) :
  0 <= z < 2 ^ bits -> to_unsigned bits z = z.
Proof. intros Hz. unfold to_unsigned. by rewrite Z.mod_small. Qed.

Lemma to_unsigned_range (bits z : Z) :
  0 <= bits -> 0 <= to_unsigned bits z < 2 ^ bits.
Proof. intros Hb. unfold to_unsigned. apply Z.mod_pos_bound. by apply Z.pow_pos_nonneg. Qed.

(** ** [Instruction::reset] *)

Section Reset.
Context {W : Type}.
Implicit Types (i : Instruction.t W) (w : W).

Lemma reset_operands i w : Instruction.operands (Instruction.reset i w).1 = [].
Proof.
  unfold Instruction.reset; simpl.
  destruct (Instruction.free i); [destruct (negb _)|]; reflexivity.
Qed.

Lemma reset_type i w : Instruction.type (Instruction.reset i w).1 = 0.
Proof.
  unfold Instruction.reset; simpl.
  destruct (Instruction.free i); [destruct (negb _)|]; reflexivity.
Qed.

Lemma reset_free i w :
  Instruction.free (Instruction.reset i w).1 = Instruction.free i.
Proof.
  unfold Instruction.reset; simpl.
  destruct (Instruction.free i) eqn:E; [destruct (negb _)|]; simpl; by rewrite ?E.
Qed.

(** With a release routine and a payload: one call, payload cleared. *)
Lemma reset_releases i w f :
  Instruction.free i = Some f -> Instruction.userdata i <> NULL ->
  (Instruction.reset i w).2 = f (Instruction.userdata i) w /\
  Instruction.userdata (Instruction.reset i w).1 = NULL.
Proof.
  intros Hf Hu. unfold Instruction.reset; simpl. rewrite Hf.
  destruct (Z.eqb_spec (Instruction.userdata i) NULL) as [E|_]; [done|].
  simpl. done.
Qed.

(** Without a release routine, or without a payload: no call, and the
    payload pointer stays as it is. *)
Lemma reset_no_release i w :
  Instruction.free i = None \/ Instruction.userdata i = NULL ->
  (Instruction.reset i w).2 = w /\
  Instruction.userdata (Instruction.reset i w).1 = Instruction.userdata i.
Proof.
  intros Hc. unfold Instruction.reset; simpl.
  destruct (Instruction.free i) as [f|]; [|done].
  destruct Hc as [Hc|Hc]; [done|]. rewrite Hc. done.
Qed.

(** A second [reset] changes nothing and calls nothing. *)
Lemma reset_reset i w :
  Instruction.reset (Instruction.reset i w).1 (Instruction.reset i w).2
  = Instruction.reset i w.
Proof.
  unfold Instruction.reset; simpl.
  destruct (Instruction.free i) as [f|] eqn:Hf; simpl.
  - destruct (Z.eqb_spec (Instruction.userdata i) NULL) as [E|E]; simpl.
    + rewrite Hf. simpl. rewrite E. reflexivity.
    + rewrite Hf. reflexivity.
  - rewrite Hf. reflexivity.
Qed.

Lemma resets_succ n i w : resets (S n) i w = Instruction.reset i w.
Proof.
  revert i w. induction n as [|n IH]; intros i w.
  - simpl. by destruct (Instruction.reset i w).
  - change (resets (S (S n)) i w)
      with (let '(i', w') := Instruction.reset i w in resets (S n) i' w').
    destruct (Instruction.reset i w) as [i' w'] eqn:E.
    rewrite IH. pose proof (reset_reset i w) as R. by rewrite E in R.
Qed.
End Reset.

(** C10. [reset] writes the type flags, the operand sequence and the payload
    pointer only: address, size, mnemonic, signature, comments and the
    segment pointer (and the release routine itself) are as before. *)
Theorem reset_frame {W : Type} (i : Instruction.t W) (w : W) :
  let i' := (Instruction.reset i w).1 in
  Instruction.address i' = Instruction.address i /\
  Instruction.size_ i' = Instruction.size_ i /\
  Instruction.mnemonic i' = Instruction.mnemonic i /\
  Instruction.signature i' = Instruction.signature i /\
  Instruction.comments i' = Instruction.comments i /\
  Instruction.segment i' = Instruction.segment i /\
  Instruction.free i' = Instruction.free i.
Proof.
  unfold Instruction.reset; simpl.
  destruct (Instruction.free i) eqn:E; [destruct (negb _)|]; simpl;
    rewrite ?E; repeat split.
Qed.

(** C7 (as amended). [reset] empties the operand sequence and zeroes the type
    flags.  When a release routine is installed and the payload pointer is
    not null, the routine is called once, on that payload, and the pointer
    becomes null; when no routine is installed or the pointer is null,
    nothing is called and the pointer is left as it is.  Any number of further
    resets changes nothing more: the whole run is the first reset. *)
Theorem reset_release_once {W : Type} (i : Instruction.t W) (w : W) :
  let r := Instruction.reset i w in
  Instruction.operands r.1 = [] /\
  Instruction.type r.1 = 0 /\
  (forall f, Instruction.free i = Some f -> Instruction.userdata i <> NULL ->
     r.2 = f (Instruction.userdata i) w /\ Instruction.userdata r.1 = NULL) /\
  (Instruction.free i = None \/ Instruction.userdata i = NULL ->
     r.2 = w /\ Instruction.userdata r.1 = Instruction.userdata i) /\
  Instruction.reset r.1 r.2 = r /\
  (forall n, resets (S n) i w = r).
Proof.
  cbv zeta. split_and!.
  - apply reset_operands.
  - apply reset_type.
  - intros f. apply reset_releases.
  - apply reset_no_release.
  - apply reset_reset.
  - intros n. apply resets_succ.
Qed.

(** The recording release routine sees the payload once, over three resets. *)
Lemma reset_release_once_witness :
  (resets 3 Sample.with_payload []).2 = [0x1000] /\
  Instruction.userdata (resets 3 Sample.with_payload []).1 = NULL.
Proof.
  destruct (reset_release_once Sample.with_payload [])
    as (_ & _ & Hrel & _ & _ & Hn).
  rewrite (Hn 2%nat).
  apply (Hrel Sample.record_release); [reflexivity | vm_compute; discriminate].
Defined.

(** C7, the claim as written fails: with a payload but no release routine
    installed, [reset] leaves the payload pointer set. *)
Lemma reset_keeps_payload_without_free :
  Instruction.userdata Sample.payload_without_free <> NULL /\
  Instruction.userdata (Instruction.reset Sample.payload_without_free []).1
    = Instruction.userdata Sample.payload_without_free /\
  Instruction.userdata (Instruction.reset Sample.payload_without_free []).1 <> NULL.
Proof. vm_compute. repeat split; discriminate. Qed.

(** ** The append operations *)

Section Appends.
Context {W : Type}.
Implicit Types (i : Instruction.t W) (c : Builder.call).

(** Every append operation pushes exactly one operand, whose [pos] is the
    [s32] conversion of the size before the call. *)
Lemma run1_operands c i :
  exists o,
    Instruction.operands (Builder.run1 c i) = Instruction.operands i ++ [o] /\
    Operand.pos o = to_s32 (size (Instruction.operands i)).
Proof. destruct c; simpl; eexists; split; reflexivity. Qed.

Lemma run_snoc cs c i :
  Builder.run (cs ++ [c]) i = Builder.run1 c (Builder.run cs i).
Proof. unfold Builder.run. by rewrite foldl_app. Qed.

Lemma run_operands cs i :
  size (Instruction.operands i) + size cs <= 2 ^ 31 ->
  exists news,
    Instruction.operands (Builder.run cs i) = Instruction.operands i ++ news /\
    length news = length cs /\
    forall (k : nat) o, news !! k = Some o ->
      Operand.pos o = size (Instruction.operands i) + Z.of_nat k.
Proof.
  induction cs as [|c cs IH] using rev_ind; intros Hsz.
  - exists []. split_and!; [by rewrite app_nil_r | done | done].
  - unfold size in *. rewrite length_app in Hsz. simpl in Hsz.
    destruct IH as (news & Hops & Hlen & Hpos); [lia|].
    rewrite run_snoc.
    destruct (run1_operands c (Builder.run cs i)) as (o & Ho & Hp).
    exists (news ++ [o]). split_and!.
    + by rewrite Ho, Hops, app_assoc.
    + rewrite !length_app. simpl. lia.
    + intros k o' Hk.
      apply lookup_app_Some in Hk as [Hk|[Hge Hk]]; [by apply Hpos|].
      apply list_lookup_singleton_Some in Hk as [Hk0 <-].
      rewrite Hp, Hops. unfold size. rewrite length_app.
      rewrite to_s32_small; lia.
Qed.
End Appends.

(** C9. Chaining append operations ([op], [mem], [imm], [reg], [disp]) on an
    instruction adds one operand per call after the operands already there,
    and the operand added by the call number [k] carries in [pos] the number
    of operands that preceded it; started on an empty operand sequence, the
    operand at index [k] has [pos = k].  ([pos] is an [s32]: the count is
    taken up to [2^31] operands.) *)
Theorem append_stamps_position {W : Type} (i : Instruction.t W)
    (cs : list Builder.call) :
  size (Instruction.operands i) + size cs <= 2 ^ 31 ->
  (exists news,
     Instruction.operands (Builder.run cs i) = Instruction.operands i ++ news /\
     length news = length cs /\
     forall (k : nat) o, news !! k = Some o ->
       Operand.pos o = size (Instruction.operands i) + Z.of_nat k) /\
  (Instruction.operands i = [] ->
   forall (k : nat) o, Instruction.operands (Builder.run cs i) !! k = Some o ->
     Operand.pos o = Z.of_nat k).
Proof.
  intros Hsz. destruct (run_operands cs i Hsz) as (news & Hops & Hlen & Hpos).
  split; [by exists news|].
  intros Hnil k o Hk. rewrite Hops, Hnil in Hk. simpl in Hk.
  rewrite (Hpos k o Hk), Hnil. unfold size. simpl. lia.
Qed.

(** Five appends on a fresh instruction: positions 0 to 4. *)
Lemma append_stamps_position_witness :
  let cs := [Builder.Reg Sample.EAX 0; Builder.Imm (-1);
             Builder.Op Operand.default; Builder.Mem 0x401000;
             Builder.Disp2 Sample.EBX 0x10] in
  size (Instruction.operands Sample.mov) + size cs <= 2 ^ 31 /\
  Instruction.operands Sample.mov = [] /\
  (Instruction.operands Sample.mov = [] ->
   forall (k : nat) o,
     Instruction.operands (Builder.run cs Sample.mov) !! k = Some o ->
     Operand.pos o = Z.of_nat k).
Proof.
  cbv zeta. split; [vm_compute; discriminate|]. split; [reflexivity|].
  apply append_stamps_position. vm_compute; discriminate.
Defined.

(** ** Strings *)

Lemma append_nil_l (s : string) : "" +:+ s = s.
Proof. reflexivity. Qed.

Lemma append_cons (c : ascii) (s t : string) :
  String c s +:+ t = String c (s +:+ t).
Proof. reflexivity. Qed.

Lemma append_nil_r (s : string) : s +:+ "" = s.
Proof. induction s as [|c s IH]; [done|]. by rewrite append_cons, IH. Qed.

Lemma append_assoc (a b c : string) : (a +:+ b) +:+ c = a +:+ (b +:+ c).
Proof. induction a as [|x a IH]; [done|]. by rewrite !append_cons, IH. Qed.

Lemma empty_true (s : string) : empty s = true <-> s = "".
Proof. destruct s; simpl; split; congruence. Qed.

Lemma empty_false (s : string) : empty s = false <-> s <> "".
Proof. destruct s; simpl; split; congruence. Qed.

Lemma empty_append (a b : string) : empty (a +:+ b) = empty a && empty b.
Proof. by destruct a. Qed.

Lemma length_append (a b : string) :
  String.length (a +:+ b) = (String.length a + String.length b)%nat.
Proof.
  induction a as [|x a IH]; [done|]. rewrite append_cons. simpl. by rewrite IH.
Qed.

(** ** [Printer::out]: one operand *)

Section OperandText.
Context {HX : Hex}.
Variable this : Printer.t.
Implicit Types (o : Operand.t).

Lemma to_u64_s_value o : to_u64 (Operand.s_value o) = to_u64 (Operand.u_value o).
Proof.
  unfold Operand.s_value, to_u64, to_s64, to_signed, to_unsigned.
  change (2 ^ (64 - 1)) with (2 ^ 63). change (2 ^ 64) with (2 * 2 ^ 63).
  rewrite <- Zminus_mod_idemp_l, Zmod_mod, Zminus_mod_idemp_l.
  f_equal. lia.
Qed.

(** The address looked up for an Immediate or Memory operand is its 64-bit
    cell, whichever reading the source picks. *)
Lemma opstr_lookup_key o :
  to_u64 (if Operand.is_ o OperandTypes.Immediate
          then Operand.s_value o else Operand.u_value o)
  = to_u64 (Operand.u_value o).
Proof. destruct (Operand.is_ _ _); [apply to_u64_s_value|done]. Qed.
End OperandText.

(** C5. An Immediate or Memory operand is always rendered: its value (the
    signed reading for Immediate, the unsigned for Memory, as a 64-bit
    address) is looked up in the symbol table; a symbol defined there gives
    its name, and otherwise the text is the hexadecimal literal of the signed
    value for Immediate, of the unsigned value for Memory. *)
Theorem immediate_memory_text {HX : Hex} (this : Printer.t) (o : Operand.t) :
  Operand.type o = OperandTypes.Immediate \/ Operand.type o = OperandTypes.Memory ->
  let value :=
    if Operand.is_ o OperandTypes.Immediate
    then Operand.s_value o else Operand.u_value o in
  let symbol := SymbolTable.symbol (Printer._symboltable this) (to_u64 value) in
  (forall sym, symbol = Some sym ->
     Printer.opstr this o = Some (Symbol.name sym)) /\
  (symbol = None -> Operand.type o = OperandTypes.Immediate ->
     Printer.opstr this o = Some (hex_s64 (Operand.s_value o))) /\
  (symbol = None -> Operand.type o = OperandTypes.Memory ->
     Printer.opstr this o = Some (hex_u64 (Operand.u_value o))) /\
  is_Some (Printer.opstr this o).
Proof.
  intros Hty. cbv zeta. unfold Printer.opstr, Operand.is_.
  assert ((Operand.type o =? OperandTypes.Immediate)
          || (Operand.type o =? OperandTypes.Memory) = true) as ->.
  { destruct Hty as [-> | ->]; reflexivity. }
  split_and!.
  - intros sym ->. reflexivity.
  - intros -> ->. reflexivity.
  - intros -> ->. reflexivity.
  - eauto.
Qed.

(** A Memory operand at the address of [myFunc], and an Immediate with no
    symbol at its value. *)
Lemma immediate_memory_text_witness :
  Printer.opstr (HX := Sample.hex) Sample.printer_myFunc
    (Operand.make OperandTypes.Memory 0x401000 0) = Some "myFunc" /\
  Printer.opstr (HX := Sample.hex) Sample.printer_myFunc
    (Operand.make OperandTypes.Immediate (-1) 0) = Some "-0x1".
Proof.
  split.
  - refine (proj1 (immediate_memory_text (HX := Sample.hex) Sample.printer_myFunc
                     (Operand.make OperandTypes.Memory 0x401000 0) _)
              (Symbol.mk "myFunc" 0x401000 SymbolTypes.Import) _);
      [right|]; reflexivity.
  - refine (proj1 (proj2 (immediate_memory_text (HX := Sample.hex)
                     Sample.printer_myFunc
                     (Operand.make OperandTypes.Immediate (-1) 0) _)) _ _);
      [left| |]; reflexivity.
Defined.

(** Once a symbol is defined at an address, a Memory operand holding that
    address renders as the symbol's name, whatever [hex] would print. *)
Lemma memory_text_after_define {HX : Hex} (st : gmap Z Symbol.t)
    (reg : RegisterOperand.t -> string) (a : Z) (name : string)
    (kind : SymbolTypes.t) (o : Operand.t) :
  Operand.type o = OperandTypes.Memory -> Operand.u_value o = a -> 0 <= a < 2 ^ 64 ->
  Printer.opstr (Printer.mk (SymbolTable.define a name kind st) reg) o = Some name.
Proof.
  intros Hty Hv Ha.
  unfold Printer.opstr, Operand.is_. rewrite Hty. simpl.
  unfold SymbolTable.symbol, SymbolTable.define.
  rewrite Hv. unfold to_u64. rewrite to_unsigned_small by done.
  by rewrite lookup_insert_eq.
Qed.

(** ** [Printer::mem] *)

Ltac str_norm :=
  repeat (progress (rewrite ?append_cons, ?append_nil_l, ?append_nil_r,
                      ?append_assoc); simpl).

Lemma append_cons_nonempty (s t : string) (c : ascii) : s +:+ String c t <> "".
Proof. destruct s; [done|]. by rewrite append_cons. Qed.

Lemma brackets_not_empty (s : string) : s <> "" -> "[" +:+ s +:+ "]" <> "[]".
Proof.
  destruct s as [|c s]; [done|]. intros _. str_norm.
  intros E. injection E as _ E. by apply append_cons_nonempty in E.
Qed.

(** The result is never a pair of brackets around nothing. *)
Lemma mem_not_empty_brackets {HX : Hex} (this : Printer.t) (memop : MemoryOperand.t) :
  Printer.mem this memop <> "[]".
Proof.
  unfold Printer.mem.
  match goal with |- (if negb (empty ?s) then _ else _) <> _ => destruct s eqn:E end.
  - done.
  - apply brackets_not_empty. done.
Qed.

(** C4 (as amended). For a Displacement operand whose register names and
    displacement text are not empty strings: when the displacement is not
    negative, or a symbol is defined at it, the text is the present terms
    (base register; index register, with [" * "] and the scale when the scale
    exceeds one; a non-zero displacement as the symbol's name or else in
    hexadecimal) joined by [" + "] between brackets; a negative displacement
    with no symbol is written in hexadecimal straight after the register
    terms, with no [" + "] before it.  With no term present the text is
    empty, and it is never ["[]"]. *)
Theorem mem_text {HX : Hex} (this : Printer.t) (memop : MemoryOperand.t) :
  (RegisterOperand.isValid (MemoryOperand.base memop) = true ->
     Printer.reg this (MemoryOperand.base memop) <> "") ->
  (RegisterOperand.isValid (MemoryOperand.index memop) = true ->
     Printer.reg this (MemoryOperand.index memop) <> "") ->
  (MemoryOperand.displacement memop <> 0 -> displacement_text this memop <> "") ->
  let d := MemoryOperand.displacement memop in
  let symbol := SymbolTable.symbol (Printer._symboltable this) (to_u64 d) in
  (0 <= d \/ is_Some symbol -> Printer.mem this memop = mem_claimed this memop) /\
  (d < 0 -> symbol = None ->
     Printer.mem this memop
     = "[" +:+ String.concat " + " (register_terms this memop) +:+ hex_s64 d +:+ "]") /\
  (mem_terms this memop = [] -> Printer.mem this memop = "") /\
  Printer.mem this memop <> "[]".
Proof.
  intros Hb Hi Hd. cbv zeta.
  split_and!; [| | |apply mem_not_empty_brackets];
  unfold Printer.mem, mem_claimed, mem_terms, register_terms, index_text,
    displacement_text in *;
  destruct (RegisterOperand.isValid (MemoryOperand.base memop));
  destruct (RegisterOperand.isValid (MemoryOperand.index memop));
  destruct (1 <? MemoryOperand.scale memop);
  (destruct (Z.eqb_spec (MemoryOperand.displacement memop) 0) as [E0|E0]);
  (destruct (Z.ltb_spec 0 (MemoryOperand.displacement memop)) as [Ep|Ep]);
  destruct (SymbolTable.symbol _ _) as [sym|];
  try lia;
  try (specialize (Hb eq_refl)); try (specialize (Hi eq_refl));
  try (specialize (Hd E0));
  try (destruct (Printer.reg this (MemoryOperand.base memop)) as [|cb rb]; [done|]);
  try (destruct (Printer.reg this (MemoryOperand.index memop)) as [|ci ri]; [done|]);
  try (destruct (Symbol.name sym) as [|cn rn]; [done|]);
  try (destruct (hex_s64 (MemoryOperand.displacement memop)) as [|ch rh]; [done|]);
  simpl; str_norm;
  try (intros [?|[? ?]]); intros; try reflexivity; try lia; try discriminate.
Qed.

(** [ebx + ecx * 4 + 0x10]: three terms joined by [" + "]. *)
Lemma mem_text_witness :
  Printer.mem (HX := Sample.hex) Sample.printer Sample.ebx_ecx4_0x10
  = mem_claimed (HX := Sample.hex) Sample.printer Sample.ebx_ecx4_0x10.
Proof.
  apply (mem_text (HX := Sample.hex) Sample.printer Sample.ebx_ecx4_0x10);
    try (intros _; vm_compute; discriminate).
  left. vm_compute. discriminate.
Defined.

(** C4, the claim as written fails: a negative displacement with no symbol
    is not joined with [" + "]. *)
Lemma mem_negative_displacement_not_joined :
  Printer.mem (HX := Sample.hex) Sample.printer Sample.ebx_minus_0x10 = "[ebx-0x10]" /\
  mem_claimed (HX := Sample.hex) Sample.printer Sample.ebx_minus_0x10 = "[ebx + -0x10]" /\
  Printer.mem (HX := Sample.hex) Sample.printer Sample.ebx_minus_0x10
  <> mem_claimed (HX := Sample.hex) Sample.printer Sample.ebx_minus_0x10.
Proof. vm_compute. split_and!; [reflexivity | reflexivity | discriminate]. Qed.

(** ** [Printer::out] *)

Section Out.
Context {HX : Hex}.
Variable this : Printer.t.

Lemma concat_cons_rest (o : Operand.t) (ops : list Operand.t) :
  String.concat ", " (map (added this) (o :: ops))
  = added this o +:+ rest_text this ops.
Proof.
  revert o. induction ops as [|o' ops IH]; intros o.
  - simpl. by rewrite append_nil_r.
  - change (String.concat ", " (map (added this) (o :: o' :: ops)))
      with (added this o +:+ ", " +:+
            String.concat ", " (map (added this) (o' :: ops))).
    by rewrite IH.
Qed.

Lemma out_loop_rest {C : Type} (opfunc : option (Operand.t -> string -> C -> C))
    (ops : list Operand.t) (s : string) (c : C) :
  (Printer.out_loop this opfunc false ops s c).1 = s +:+ rest_text this ops.
Proof.
  revert s c. induction ops as [|o ops IH]; intros s c.
  - simpl. by rewrite append_nil_r.
  - simpl. unfold added. destruct (Printer.opstr this o) as [text|]; simpl.
    + rewrite IH. by rewrite !append_assoc.
    + rewrite IH. by rewrite !append_assoc.
  Qed.

Lemma out_loop_first {C : Type} (opfunc : option (Operand.t -> string -> C -> C))
    (o : Operand.t) (ops : list Operand.t) (s : string) (c : C) :
  (Printer.out_loop this opfunc true (o :: ops) s c).1
  = s +:+ added this o +:+ rest_text this ops.
Proof.
  simpl. unfold added. destruct (Printer.opstr this o) as [text|]; simpl.
  - rewrite out_loop_rest. by rewrite append_assoc.
  - by rewrite out_loop_rest.
Qed.

(** The line [Printer::out] builds, callback or not: one separator between
    every two operands, rendered or skipped. *)
Lemma out_with_text {W C : Type} (i : Instruction.t W)
    (opfunc : option (Operand.t -> string -> C -> C)) (c : C) :
  (Printer.out_with this i opfunc c).1 =
  match Instruction.operands i with
  | [] => Instruction.mnemonic i
  | ops =>
      Instruction.mnemonic i +:+ " " +:+ String.concat ", " (map (added this) ops)
  end.
Proof.
  unfold Printer.out_with. destruct (Instruction.operands i) as [|o ops].
  - reflexivity.
  - rewrite concat_cons_rest. change (negb (vempty (o :: ops))) with true.
    cbv iota. rewrite out_loop_first. by rewrite append_assoc.
Qed.

(** When no operand is skipped, the line is the one the specification
    describes. *)
Lemma out_all_rendered {W : Type} (i : Instruction.t W) :
  Forall (fun o => is_Some (Printer.opstr this o)) (Instruction.operands i) ->
  Printer.out this i = out_claimed this i.
Proof.
  intros Hall. unfold Printer.out. rewrite out_with_text. unfold out_claimed.
  assert (omap (Printer.opstr this) (Instruction.operands i)
          = map (added this) (Instruction.operands i)) as ->.
  { induction Hall as [|o ops [text Ho] _ IH]; [done|].
    cbn [omap list_omap map]. unfold added at 1. rewrite Ho. simpl.
    by rewrite <- IH. }
  by destruct (Instruction.operands i).
Qed.
End Out.

(** The callback does not change the text. *)
Lemma out_with_callback {HX : Hex} (this : Printer.t) {W C : Type}
    (i : Instruction.t W) (opfunc : option (Operand.t -> string -> C -> C)) (c : C) :
  (Printer.out_with this i opfunc c).1 = Printer.out this i.
Proof. unfold Printer.out. by rewrite !out_with_text. Qed.

(** C3, at the failing input: an operand of type [None] between two
    registers.  The loop has already appended [", "] when it skips the
    operand, so the line has two separators in a row where the specification
    has one; with a single skipped operand the line ends in a blank. *)
Theorem out_skipped_operand_leaves_separator :
  Printer.out (HX := Sample.hex) Sample.printer Sample.mov_eax_none_ebx
    = "mov eax, , ebx" /\
  out_claimed (HX := Sample.hex) Sample.printer Sample.mov_eax_none_ebx
    = "mov eax, ebx" /\
  Printer.out (HX := Sample.hex) Sample.printer Sample.mov_none = "mov " /\
  out_claimed (HX := Sample.hex) Sample.printer Sample.mov_none = "mov".
Proof. vm_compute. repeat split. Qed.

(** C6. An instruction [mov] with a Register operand that the backend names
    [eax] and a Displacement operand whose base register is named [ebx], with
    no index register and displacement [0x10], no symbol being defined at
    [0x10], is rendered [mov eax, [ebx + 0x10]] (given that [hex] writes
    [0x10] for sixteen). *)
Theorem out_mov_eax_ebx_0x10 {HX : Hex} (this : Printer.t) {W : Type}
    (i : Instruction.t W) (o1 o2 : Operand.t) :
  Instruction.mnemonic i = "mov" ->
  Instruction.operands i = [o1; o2] ->
  Operand.type o1 = OperandTypes.Register ->
  Printer.reg this (Operand.reg o1) = "eax" ->
  Operand.type o2 = OperandTypes.Displacement ->
  RegisterOperand.isValid (MemoryOperand.base (Operand.mem o2)) = true ->
  Printer.reg this (MemoryOperand.base (Operand.mem o2)) = "ebx" ->
  RegisterOperand.isValid (MemoryOperand.index (Operand.mem o2)) = false ->
  MemoryOperand.displacement (Operand.mem o2) = 0x10 ->
  SymbolTable.symbol (Printer._symboltable this) 0x10 = None ->
  hex_s64 0x10 = "0x10" ->
  Printer.out this i = "mov eax, [ebx + 0x10]".
Proof.
  intros Hm Hops Ht1 Hr1 Ht2 Hbase Hrb Hidx Hd Hsym Hhex.
  assert (Printer.opstr this o1 = Some "eax") as H1.
  { unfold Printer.opstr, Operand.is_. rewrite Ht1. simpl. by rewrite Hr1. }
  assert (Printer.mem this (Operand.mem o2) = "[ebx + 0x10]") as Hmem.
  { unfold Printer.mem. rewrite Hbase, Hidx, Hrb, Hd.
    change (to_u64 16) with 16. rewrite Hsym, Hhex. reflexivity. }
  assert (Printer.opstr this o2 = Some "[ebx + 0x10]") as H2.
  { unfold Printer.opstr, Operand.is_. rewrite Ht2. simpl. by rewrite Hmem. }
  unfold Printer.out. rewrite out_with_text, Hops, Hm.
  cbn [map]. unfold added. rewrite H1, H2. reflexivity.
Qed.

(** The instruction built by [reg(EAX).disp(EBX, 0x10)]. *)
Lemma out_mov_eax_ebx_0x10_witness :
  Printer.out (HX := Sample.hex) Sample.printer Sample.mov_eax_ebx_0x10
  = "mov eax, [ebx + 0x10]".
Proof.
  eapply (out_mov_eax_ebx_0x10 (HX := Sample.hex) Sample.printer
            Sample.mov_eax_ebx_0x10); reflexivity.
Defined.

(** ** [PeFormat::readDescriptor] *)

Section Walk.
Context {EXT : PeExternals}.
Variable T : THUNK.
Variable ordinalflag : Z.
Implicit Types (this : PeFormat.t) (d : ImageImportDescriptor.t).

(** The three [u64] additions amount to one sum taken modulo [2^64]. *)
Lemma thunk_address_sum this d (i : Z) :
  PeFormat.thunk_address T this d i
  = to_u64 (PeFormat._imagebase this + ImageImportDescriptor.FirstThunk d
            + i * sizeof T).
Proof.
  unfold PeFormat.thunk_address, to_u64, to_unsigned.
  by rewrite Zplus_mod_idemp_r, Z.add_assoc, Zplus_mod_idemp_r.
Qed.

(** A finished walk from index [i]: one definition per thunk up to a zero
    thunk, at which it stopped. *)
Lemma walk_defined (fuel : nat) (thunk : Z) (descriptorname : string) d :
  forall (i : Z) this this',
    PeFormat.walk T ordinalflag fuel thunk descriptorname d i this = Some this' ->
    exists news,
      this' = defining news this /\
      (forall (k : nat) sym, news !! k = Some sym ->
         defines T ordinalflag this thunk descriptorname d (i + Z.of_nat k) sym) /\
      PeFormat.thunk_at T this thunk (i + size news) = Some 0.
Proof.
  induction fuel as [|fuel IH]; intros i this this' Hwalk; [done|].
  simpl in Hwalk.
  destruct (PeFormat.thunk_at T this thunk i) as [v|] eqn:Hv; [|done].
  simpl in Hwalk. destruct (Z.eqb_spec v 0) as [->|Hnz].
  - injection Hwalk as <-. exists []. split_and!.
    + destruct this. unfold defining. simpl. by rewrite app_nil_r.
    + done.
    + unfold size. simpl. by rewrite Z.add_0_r.
  - destruct (PeFormat.importname_of T ordinalflag this descriptorname v)
      as [importname|] eqn:Hname; [|done].
    simpl in Hwalk. apply IH in Hwalk as (news & -> & Hnews & Hzero).
    exists (Symbol.mk importname (PeFormat.thunk_address T this d i)
              SymbolTypes.Import :: news).
    split_and!.
    + unfold defining, PeFormat.defineSymbol. simpl. by rewrite <- app_assoc.
    + intros [|k] sym Hk.
      * injection Hk as <-. rewrite Z.add_0_r. exists v. by split_and!.
      * replace (i + Z.of_nat (S k)) with (i + 1 + Z.of_nat k) by lia.
        apply (Hnews k sym Hk).
    + unfold size in *. simpl length.
      replace (i + Z.of_nat (S (length news)))
        with (i + 1 + Z.of_nat (length news)) by lia.
      exact Hzero.
Qed.

(** The walk reaches a zero thunk at distance [n] when the thunks before it
    are non-zero with readable names and the fuel exceeds [n]. *)
Lemma walk_reaches_zero (thunk : Z) (descriptorname : string) d (n : nat) :
  forall (fuel : nat) (i : Z) this,
    (n < fuel)%nat ->
    PeFormat.thunk_at T this thunk (i + Z.of_nat n) = Some 0 ->
    (forall k : nat, (k < n)%nat ->
       exists v, PeFormat.thunk_at T this thunk (i + Z.of_nat k) = Some v /\ v <> 0 /\
         is_Some (PeFormat.importname_of T ordinalflag this descriptorname v)) ->
    exists this' news,
      PeFormat.walk T ordinalflag fuel thunk descriptorname d i this = Some this' /\
      this' = defining news this /\ length news = n.
Proof.
  induction n as [|n IH]; intros fuel i this Hfuel Hzero Hbefore.
  - destruct fuel as [|fuel]; [lia|]. rewrite Z.add_0_r in Hzero.
    exists this, []. simpl. rewrite Hzero. simpl. split_and!; [done| |done].
    destruct this. unfold defining. simpl. by rewrite app_nil_r.
  - destruct fuel as [|fuel]; [lia|].
    destruct (Hbefore 0%nat) as (v & Hv & Hnz & [importname Hname]); [lia|].
    rewrite Z.add_0_r in Hv.
    set (this1 := PeFormat.defineSymbol (PeFormat.thunk_address T this d i)
                    importname SymbolTypes.Import this).
    destruct (IH fuel (i + 1) this1) as (this' & news & Hwalk & -> & Hlen).
    + lia.
    + replace (i + 1 + Z.of_nat n) with (i + Z.of_nat (S n)) by lia. exact Hzero.
    + intros k Hk. replace (i + 1 + Z.of_nat k) with (i + Z.of_nat (S k)) by lia.
      apply (Hbefore (S k)). lia.
    + exists (defining news this1),
        (Symbol.mk importname (PeFormat.thunk_address T this d i)
           SymbolTypes.Import :: news).
      split_and!.
      * simpl. rewrite Hv. simpl.
        destruct (Z.eqb_spec v 0) as [?|_]; [done|].
        rewrite Hname. simpl. exact Hwalk.
      * unfold defining, this1, PeFormat.defineSymbol. simpl.
        by rewrite <- app_assoc.
      * simpl. by rewrite Hlen.
Qed.
End Walk.

Section ReadDescriptor.
Context {EXT : PeExternals}.
Variable T : THUNK.
Variable ordinalflag : Z.
Implicit Types (this : PeFormat.t) (d : ImageImportDescriptor.t).

Lemma sizeof_pos : 0 < sizeof T.
Proof. by destruct T. Qed.

(** A thunk that can be read lies inside the image. *)
Lemma thunk_at_bounds this (thunk i v : Z) :
  PeFormat.thunk_at T this thunk i = Some v ->
  0 <= thunk + i * sizeof T /\
  thunk + i * sizeof T + sizeof T <= size (PeFormat.rawformat this).
Proof.
  unfold PeFormat.thunk_at, read_le. intros Hread.
  destruct (_ || _) eqn:Hout; [done|].
  apply orb_false_iff in Hout as [Hlo Hhi].
  apply Z.ltb_ge in Hlo, Hhi.
  rewrite Z2Nat.id in Hhi by (pose proof sizeof_pos; lia). lia.
Qed.

(** The walk never runs out of turns before the end of the image. *)
Lemma zero_thunk_within_fuel this (thunk : Z) (n : nat) :
  PeFormat.thunk_at T this thunk (Z.of_nat n) = Some 0 ->
  (forall k : nat, (k < n)%nat ->
     exists v, PeFormat.thunk_at T this thunk (Z.of_nat k) = Some v) ->
  (n < S (length (PeFormat.rawformat this)))%nat.
Proof.
  intros Hzero Hbefore. destruct n as [|n]; [lia|].
  destruct (Hbefore 0%nat) as [v Hv]; [lia|].
  apply thunk_at_bounds in Hzero, Hv. unfold size in *.
  pose proof sizeof_pos. nia.
Qed.

(** [readDescriptor] changes the variant hint and the definitions only. *)
Lemma readDescriptor_defined d this this' :
  PeFormat.readDescriptor T ordinalflag d this = Some this' ->
  exists descriptorname news,
    cstring_at (PeFormat.rawformat this)
      (rvaToOffset (ImageImportDescriptor.Name d)) = Some descriptorname /\
    PeFormat.defined this' = PeFormat.defined this ++ news /\
    (forall (k : nat) sym, news !! k = Some sym ->
       defines T ordinalflag this (rvaToOffset (selected_thunks d))
         (transform tolower descriptorname) d (Z.of_nat k) sym) /\
    PeFormat.thunk_at T this (rvaToOffset (selected_thunks d)) (size news) = Some 0.
Proof.
  unfold PeFormat.readDescriptor, PeFormat.RVA_POINTER. intros Hread.
  destruct (cstring_at _ _) as [descriptorname|] eqn:Hname; [|done].
  cbv beta iota zeta delta [mbind option_bind] in Hread.
  apply walk_defined in Hread as (news & -> & Hnews & Hzero).
  exists descriptorname, news.
  assert ((if negb (ImageImportDescriptor.OriginalFirstThunk d =? 0)
           then ImageImportDescriptor.OriginalFirstThunk d
           else ImageImportDescriptor.FirstThunk d) = selected_thunks d) as Hsel.
  { unfold selected_thunks. by destruct (_ =? 0). }
  rewrite Hsel in Hnews, Hzero.
  split_and!; [done| | |].
  - by destruct (found _ _).
  - intros k sym Hk. specialize (Hnews k sym Hk). rewrite Z.add_0_l in Hnews.
    by destruct (found _ _).
  - rewrite Z.add_0_l in Hzero. by destruct (found _ _).
Qed.
End ReadDescriptor.

(** [readDescriptor] returns when the table it reads has a zero thunk after
    thunks whose names can be read, and it has then added one definition per
    thunk before the zero. *)
Lemma readDescriptor_returns {EXT : PeExternals} (T : THUNK) (ordinalflag : Z)
    (d : ImageImportDescriptor.t) (this : PeFormat.t) (descriptorname : string)
    (n : nat) :
  cstring_at (PeFormat.rawformat this)
    (rvaToOffset (ImageImportDescriptor.Name d)) = Some descriptorname ->
  PeFormat.thunk_at T this (rvaToOffset (selected_thunks d)) (Z.of_nat n) = Some 0 ->
  (forall k : nat, (k < n)%nat ->
     exists v,
       PeFormat.thunk_at T this (rvaToOffset (selected_thunks d)) (Z.of_nat k)
         = Some v /\ v <> 0 /\
       is_Some (PeFormat.importname_of T ordinalflag this
                  (transform tolower descriptorname) v)) ->
  exists this' news,
    PeFormat.readDescriptor T ordinalflag d this = Some this' /\
    PeFormat.defined this' = PeFormat.defined this ++ news /\
    length news = n.
Proof.
  intros Hname Hzero Hbefore.
  unfold PeFormat.readDescriptor, PeFormat.RVA_POINTER. rewrite Hname.
  cbv beta iota zeta delta [mbind option_bind].
  set (this1 := if found _ _ then _ else this).
  assert (PeFormat.rawformat this1 = PeFormat.rawformat this) as Hraw
    by (unfold this1; by destruct (found _ _)).
  assert (PeFormat.defined this1 = PeFormat.defined this) as Hdef
    by (unfold this1; by destruct (found _ _)).
  assert ((if negb (ImageImportDescriptor.OriginalFirstThunk d =? 0)
           then ImageImportDescriptor.OriginalFirstThunk d
           else ImageImportDescriptor.FirstThunk d) = selected_thunks d) as ->.
  { unfold selected_thunks. by destruct (_ =? 0). }
  destruct (walk_reaches_zero T ordinalflag (rvaToOffset (selected_thunks d))
              (transform tolower descriptorname) d n
              (S (length (PeFormat.rawformat this1))) 0 this1)
    as (this' & news & Hwalk & -> & Hlen).
  - rewrite Hraw. apply (zero_thunk_within_fuel T this _ n Hzero).
    intros k Hk. destruct (Hbefore k Hk) as (v & Hv & _). by exists v.
  - rewrite Z.add_0_l. unfold this1. by destruct (found _ _).
  - intros k Hk. rewrite Z.add_0_l. unfold this1.
    by destruct (found _ _); apply Hbefore.
  - exists (defining news this1), news. split_and!; [done| |done].
    unfold defining. simpl. by rewrite Hdef.
Qed.

(** C1. [readDescriptor] reads its thunks from the table at
    [OriginalFirstThunk] when that field is not zero and from the table at
    [FirstThunk] otherwise, and defines the symbol of thunk [k] at
    [imagebase + FirstThunk + k * sizeof(THUNK)] ([u64] arithmetic;
    [sizeof(THUNK)] is 4 for 32-bit thunks and 8 for 64-bit ones) whichever
    table it read.  Whenever it returns, it has walked that table up to its
    first zero thunk and has added, for every index [k] before it, one
    definition named after thunk [k] of that table, at that address; and it
    does return, with [n] more definitions, when that table has its first
    zero thunk at index [n] and the names involved can be read. *)
Theorem import_address_uses_first_thunk {EXT : PeExternals} (T : THUNK)
    (ordinalflag : Z) (d : ImageImportDescriptor.t) (this : PeFormat.t) :
  let table :=
    if ImageImportDescriptor.OriginalFirstThunk d =? 0
    then ImageImportDescriptor.FirstThunk d
    else ImageImportDescriptor.OriginalFirstThunk d in
  let slot (k : nat) :=
    PeFormat._imagebase this + ImageImportDescriptor.FirstThunk d
    + Z.of_nat k * sizeof T in
  sizeof T = match T with ImageThunkData32 => 4 | ImageThunkData64 => 8 end /\
  (forall this',
     PeFormat.readDescriptor T ordinalflag d this = Some this' ->
     exists (descriptorname : string) (news : list Symbol.t),
       cstring_at (PeFormat.rawformat this)
         (rvaToOffset (ImageImportDescriptor.Name d)) = Some descriptorname /\
       PeFormat.defined this' = PeFormat.defined this ++ news /\
       PeFormat.thunk_at T this (rvaToOffset table) (size news) = Some 0 /\
       forall k : nat, (k < length news)%nat ->
         exists v sym,
           news !! k = Some sym /\
           PeFormat.thunk_at T this (rvaToOffset table) (Z.of_nat k) = Some v /\
           v <> 0 /\
           PeFormat.importname_of T ordinalflag this
             (transform tolower descriptorname) v = Some (Symbol.name sym) /\
           Symbol.type sym = SymbolTypes.Import /\
           Symbol.address sym = to_u64 (slot k) /\
           (0 <= slot k < 2 ^ 64 -> Symbol.address sym = slot k)) /\
  (forall (descriptorname : string) (n : nat),
     cstring_at (PeFormat.rawformat this)
       (rvaToOffset (ImageImportDescriptor.Name d)) = Some descriptorname ->
     PeFormat.thunk_at T this (rvaToOffset table) (Z.of_nat n) = Some 0 ->
     (forall k : nat, (k < n)%nat ->
        exists v,
          PeFormat.thunk_at T this (rvaToOffset table) (Z.of_nat k) = Some v /\
          v <> 0 /\
          is_Some (PeFormat.importname_of T ordinalflag this
                     (transform tolower descriptorname) v)) ->
     exists this' news,
       PeFormat.readDescriptor T ordinalflag d this = Some this' /\
       PeFormat.defined this' = PeFormat.defined this ++ news /\
       length news = n).
Proof.
  intros table slot.
  assert (table = selected_thunks d) as Htable by reflexivity.
  split_and!.
  - by destruct T.
  - intros this' Hread.
    apply readDescriptor_defined in Hread
      as (descriptorname & news & Hname & Hdef & Hnews & Hzero).
    exists descriptorname, news. rewrite Htable. split_and!; [done|done|done|].
    intros k Hk.
    destruct (lookup_lt_is_Some_2 news k Hk) as [sym Hsym].
    destruct (Hnews k sym Hsym) as (v & Hv & Hnz & Hnm & Haddr & Hty).
    rewrite thunk_address_sum in Haddr.
    exists v, sym. split_and!; try done.
    intros Hrange. rewrite Haddr. by apply to_unsigned_small.
  - intros descriptorname n Hname Hzero Hbefore. rewrite Htable in Hzero, Hbefore.
    by apply (readDescriptor_returns T ordinalflag d this descriptorname n).
Qed.

(** The three ways of the walk on the sample images: both tables present
    (thunks read at [0x10], symbols at [0x400020]); no original first thunks
    (thunks read from the first thunks at [0x10], symbols at [0x400010]);
    64-bit thunks (symbols eight bytes apart from [0x140000030]). *)
Lemma import_address_uses_first_thunk_witness :
  PeFormat.readDescriptor (EXT := SampleImage.externals) ImageThunkData32 SampleImage.IMAGE_ORDINAL_FLAG32
    SampleImage.descriptor32 SampleImage.pe32 = Some SampleImage.pe32_imports /\
  PeFormat.readDescriptor (EXT := SampleImage.externals) ImageThunkData32 SampleImage.IMAGE_ORDINAL_FLAG32
    SampleImage.descriptor32_bound SampleImage.pe32
    = Some SampleImports.pe32_bound_imports /\
  PeFormat.readDescriptor (EXT := SampleImage.externals) ImageThunkData64 SampleImage.IMAGE_ORDINAL_FLAG32
    SampleImage.descriptor64 SampleImage.pe64 = Some SampleImports.pe64_imports /\
  (exists this' news,
     PeFormat.readDescriptor (EXT := SampleImage.externals) ImageThunkData32 SampleImage.IMAGE_ORDINAL_FLAG32 SampleImage.descriptor32_bound SampleImage.pe32 = Some this' /\
     PeFormat.defined this' = PeFormat.defined SampleImage.pe32 ++ news /\
     length news = 2%nat) /\
  (exists this' news,
     PeFormat.readDescriptor (EXT := SampleImage.externals) ImageThunkData64 SampleImage.IMAGE_ORDINAL_FLAG32 SampleImage.descriptor64 SampleImage.pe64 = Some this' /\
     PeFormat.defined this' = PeFormat.defined SampleImage.pe64 ++ news /\
     length news = 2%nat) /\
  (exists (descriptorname : string) (news : list Symbol.t),
     cstring_at (PeFormat.rawformat SampleImage.pe32)
       (@rvaToOffset SampleImage.externals (ImageImportDescriptor.Name SampleImage.descriptor32_bound)) = Some descriptorname /\
     PeFormat.defined SampleImports.pe32_bound_imports = PeFormat.defined SampleImage.pe32 ++ news /\
     PeFormat.thunk_at ImageThunkData32 SampleImage.pe32
       (@rvaToOffset SampleImage.externals
          (if ImageImportDescriptor.OriginalFirstThunk SampleImage.descriptor32_bound =? 0
           then ImageImportDescriptor.FirstThunk SampleImage.descriptor32_bound
           else ImageImportDescriptor.OriginalFirstThunk SampleImage.descriptor32_bound)) (size news) = Some 0 /\
     forall k : nat, (k < length news)%nat ->
       exists v sym,
         news !! k = Some sym /\
         PeFormat.thunk_at ImageThunkData32 SampleImage.pe32
           (@rvaToOffset SampleImage.externals
              (if ImageImportDescriptor.OriginalFirstThunk SampleImage.descriptor32_bound =? 0
               then ImageImportDescriptor.FirstThunk SampleImage.descriptor32_bound
               else ImageImportDescriptor.OriginalFirstThunk SampleImage.descriptor32_bound)) (Z.of_nat k)
           = Some v /\
         v <> 0 /\
         PeFormat.importname_of (EXT := SampleImage.externals) ImageThunkData32 SampleImage.IMAGE_ORDINAL_FLAG32 SampleImage.pe32
           (transform tolower descriptorname) v = Some (Symbol.name sym) /\
         Symbol.type sym = SymbolTypes.Import /\
         Symbol.address sym
           = to_u64 (PeFormat._imagebase SampleImage.pe32 + ImageImportDescriptor.FirstThunk SampleImage.descriptor32_bound
                     + Z.of_nat k * sizeof ImageThunkData32) /\
         (0 <= PeFormat._imagebase SampleImage.pe32 + ImageImportDescriptor.FirstThunk SampleImage.descriptor32_bound
               + Z.of_nat k * sizeof ImageThunkData32 < 2 ^ 64 ->
          Symbol.address sym
            = PeFormat._imagebase SampleImage.pe32 + ImageImportDescriptor.FirstThunk SampleImage.descriptor32_bound
              + Z.of_nat k * sizeof ImageThunkData32)) /\
  (exists (descriptorname : string) (news : list Symbol.t),
     cstring_at (PeFormat.rawformat SampleImage.pe64)
       (@rvaToOffset SampleImage.externals (ImageImportDescriptor.Name SampleImage.descriptor64)) = Some descriptorname /\
     PeFormat.defined SampleImports.pe64_imports = PeFormat.defined SampleImage.pe64 ++ news /\
     PeFormat.thunk_at ImageThunkData64 SampleImage.pe64
       (@rvaToOffset SampleImage.externals
          (if ImageImportDescriptor.OriginalFirstThunk SampleImage.descriptor64 =? 0
           then ImageImportDescriptor.FirstThunk SampleImage.descriptor64
           else ImageImportDescriptor.OriginalFirstThunk SampleImage.descriptor64)) (size news) = Some 0 /\
     forall k : nat, (k < length news)%nat ->
       exists v sym,
         news !! k = Some sym /\
         PeFormat.thunk_at ImageThunkData64 SampleImage.pe64
           (@rvaToOffset SampleImage.externals
              (if ImageImportDescriptor.OriginalFirstThunk SampleImage.descriptor64 =? 0
               then ImageImportDescriptor.FirstThunk SampleImage.descriptor64
               else ImageImportDescriptor.OriginalFirstThunk SampleImage.descriptor64)) (Z.of_nat k)
           = Some v /\
         v <> 0 /\
         PeFormat.importname_of (EXT := SampleImage.externals) ImageThunkData64 SampleImage.IMAGE_ORDINAL_FLAG32 SampleImage.pe64
           (transform tolower descriptorname) v = Some (Symbol.name sym) /\
         Symbol.type sym = SymbolTypes.Import /\
         Symbol.address sym
           = to_u64 (PeFormat._imagebase SampleImage.pe64 + ImageImportDescriptor.FirstThunk SampleImage.descriptor64
                     + Z.of_nat k * sizeof ImageThunkData64) /\
         (0 <= PeFormat._imagebase SampleImage.pe64 + ImageImportDescriptor.FirstThunk SampleImage.descriptor64
               + Z.of_nat k * sizeof ImageThunkData64 < 2 ^ 64 ->
          Symbol.address sym
            = PeFormat._imagebase SampleImage.pe64 + ImageImportDescriptor.FirstThunk SampleImage.descriptor64
              + Z.of_nat k * sizeof ImageThunkData64)).
Proof.
  split_and!.
  - vm_compute; reflexivity.
  - vm_compute; reflexivity.
  - vm_compute; reflexivity.
  - refine (proj2 (proj2 (import_address_uses_first_thunk (EXT := SampleImage.externals)
              ImageThunkData32 SampleImage.IMAGE_ORDINAL_FLAG32 SampleImage.descriptor32_bound
              SampleImage.pe32)) "KERNEL32.dll" 2%nat _ _ _).
    + vm_compute; reflexivity.
    + vm_compute; reflexivity.
    + intros [|[|k]] Hk; [| |lia].
      * exists 0x30. split_and!; [vm_compute; reflexivity|discriminate|].
        eexists; vm_compute; reflexivity.
      * exists 0x80000005. split_and!; [vm_compute; reflexivity|discriminate|].
        eexists; vm_compute; reflexivity.
  - refine (proj2 (proj2 (import_address_uses_first_thunk (EXT := SampleImage.externals)
              ImageThunkData64 SampleImage.IMAGE_ORDINAL_FLAG32 SampleImage.descriptor64
              SampleImage.pe64)) "KERNEL32.dll" 2%nat _ _ _).
    + vm_compute; reflexivity.
    + vm_compute; reflexivity.
    + intros [|[|k]] Hk; [| |lia].
      * exists 0x40. split_and!; [vm_compute; reflexivity|discriminate|].
        eexists; vm_compute; reflexivity.
      * exists 0x8000000000000005.
        split_and!; [vm_compute; reflexivity|discriminate|].
        eexists; vm_compute; reflexivity.
  - refine (proj1 (proj2 (import_address_uses_first_thunk (EXT := SampleImage.externals)
              ImageThunkData32 SampleImage.IMAGE_ORDINAL_FLAG32 SampleImage.descriptor32_bound
              SampleImage.pe32)) SampleImports.pe32_bound_imports _).
    vm_compute; reflexivity.
  - refine (proj1 (proj2 (import_address_uses_first_thunk (EXT := SampleImage.externals)
              ImageThunkData64 SampleImage.IMAGE_ORDINAL_FLAG32 SampleImage.descriptor64
              SampleImage.pe64)) SampleImports.pe64_imports _).
    vm_compute; reflexivity.
Defined.

(** C8. When the table the walk reads has a zero thunk at index [n], the
    thunks before it being non-zero (with names that can be read from the
    image, as the library name can), [readDescriptor] returns, having stopped
    at that zero thunk: it has added exactly [n] definitions, the one number
    [k] being the Import symbol for thunk [k], in index order. *)
Theorem walk_stops_at_first_zero {EXT : PeExternals} (T : THUNK)
    (ordinalflag : Z) (d : ImageImportDescriptor.t) (this : PeFormat.t)
    (descriptorname : string) (n : nat) :
  let thunk := rvaToOffset (selected_thunks d) in
  cstring_at (PeFormat.rawformat this)
    (rvaToOffset (ImageImportDescriptor.Name d)) = Some descriptorname ->
  PeFormat.thunk_at T this thunk (Z.of_nat n) = Some 0 ->
  (forall k : nat, (k < n)%nat ->
     exists v, PeFormat.thunk_at T this thunk (Z.of_nat k) = Some v /\ v <> 0 /\
       is_Some (PeFormat.importname_of T ordinalflag this
                  (transform tolower descriptorname) v)) ->
  exists this' news,
    PeFormat.readDescriptor T ordinalflag d this = Some this' /\
    PeFormat.defined this' = PeFormat.defined this ++ news /\
    length news = n /\
    forall (k : nat) sym, news !! k = Some sym ->
      Symbol.type sym = SymbolTypes.Import /\
      defines T ordinalflag this thunk (transform tolower descriptorname) d
        (Z.of_nat k) sym.
Proof.
  intros thunk Hname Hzero Hbefore.
  assert (exists this', PeFormat.readDescriptor T ordinalflag d this = Some this')
    as [this' Hread].
  { unfold PeFormat.readDescriptor, PeFormat.RVA_POINTER. rewrite Hname.
    cbv beta iota zeta delta [mbind option_bind].
    set (this1 := if found _ _ then _ else this).
    assert (PeFormat.rawformat this1 = PeFormat.rawformat this) as Hraw
      by (unfold this1; by destruct (found _ _)).
    assert ((if negb (ImageImportDescriptor.OriginalFirstThunk d =? 0)
             then ImageImportDescriptor.OriginalFirstThunk d
             else ImageImportDescriptor.FirstThunk d) = selected_thunks d) as ->.
    { unfold selected_thunks. by destruct (_ =? 0). }
    destruct (walk_reaches_zero T ordinalflag thunk
                (transform tolower descriptorname) d n
                (S (length (PeFormat.rawformat this1))) 0 this1)
      as (this' & news & Hwalk & _).
    - rewrite Hraw. apply (zero_thunk_within_fuel T this thunk n Hzero).
      intros k Hk. destruct (Hbefore k Hk) as (v & Hv & _). by exists v.
    - rewrite Z.add_0_l. unfold this1. by destruct (found _ _).
    - intros k Hk. rewrite Z.add_0_l. unfold this1. by destruct (found _ _); apply Hbefore.
    - by exists this'. }
  pose proof Hread as Hdef.
  apply readDescriptor_defined in Hdef as (dn & news & Hdn & Hdef & Hnews & Hz).
  rewrite Hname in Hdn. injection Hdn as <-.
  exists this', news. split_and!; [done|done| |].
  - (* the walk stopped at its first zero thunk, which is the one at [n] *)
    destruct (Nat.lt_trichotomy (length news) n) as [Hlt|[Heq|Hgt]]; [|done|].
    + destruct (Hbefore _ Hlt) as (v & Hv & Hnz & _).
      unfold size in Hz. fold thunk in Hz. congruence.
    + destruct (lookup_lt_is_Some_2 news n Hgt) as [sym Hsym].
      destruct (Hnews n sym Hsym) as (v & Hv & Hnz & _).
      fold thunk in Hv. congruence.
  - intros k sym Hk. specialize (Hnews k sym Hk). split; [|done].
    by destruct Hnews as (v & _ & _ & _ & _ & Hty).
Qed.

(** The sample image: two thunks, then the zero thunk at index 2. *)
Lemma walk_stops_at_first_zero_witness :
  exists this' news,
    PeFormat.readDescriptor (EXT := SampleImage.externals) ImageThunkData32
      SampleImage.IMAGE_ORDINAL_FLAG32 SampleImage.descriptor32 SampleImage.pe32
    = Some this' /\
    PeFormat.defined this' = PeFormat.defined SampleImage.pe32 ++ news /\
    length news = 2%nat /\
    forall (k : nat) sym, news !! k = Some sym ->
      Symbol.type sym = SymbolTypes.Import /\
      defines (EXT := SampleImage.externals) ImageThunkData32
        SampleImage.IMAGE_ORDINAL_FLAG32 SampleImage.pe32
        (@rvaToOffset SampleImage.externals
           (selected_thunks SampleImage.descriptor32))
        (transform tolower "KERNEL32.dll") SampleImage.descriptor32
        (Z.of_nat k) sym.
Proof.
  apply (walk_stops_at_first_zero (EXT := SampleImage.externals)
           ImageThunkData32 SampleImage.IMAGE_ORDINAL_FLAG32
           SampleImage.descriptor32 SampleImage.pe32 "KERNEL32.dll" 2).
  - vm_compute; reflexivity.
  - vm_compute; reflexivity.
  - intros [|[|k]] Hk; [| |lia].
    + exists 0x30. split_and!; [vm_compute; reflexivity|discriminate|].
      eexists; vm_compute; reflexivity.
    + exists 0x80000005. split_and!; [vm_compute; reflexivity|discriminate|].
      eexists; vm_compute; reflexivity.
Defined.

(** ** The ordinal of a flagged thunk *)

(** Bit [k] set in both operands: their conjunction is not zero. *)
Lemma land_common_bit (a b k : Z) :
  Z.testbit a k = true -> Z.testbit b k = true -> Z.land a b <> 0.
Proof.
  intros Ha Hb Hzero.
  assert (Z.testbit (Z.land a b) k = true) as Hbit
    by (by rewrite Z.land_spec, Ha, Hb).
  rewrite Hzero, Z.bits_0 in Hbit. done.
Qed.

(** A number below [2^k] with bit [k] added has bit [k] set. *)
Lemma lor_top_bit (k N : Z) : 0 <= k -> Z.testbit (Z.lor (2 ^ k) N) k = true.
Proof.
  intros Hk. rewrite Z.lor_spec, Z.pow2_bits_eqb by done.
  by rewrite Z.eqb_refl.
Qed.

(** Exclusive-or with a flag that has none of the low sixteen bits, applied
    to [2^k | N] with [k] at least sixteen: the low sixteen bits are those of
    [N]. *)
Lemma lxor_low_bits (flag k N : Z) :
  16 <= k -> flag mod 2 ^ 16 = 0 ->
  Z.lxor flag (Z.lor (2 ^ k) N) mod 2 ^ 16 = N mod 2 ^ 16.
Proof.
  intros Hk Hflag. apply Z.bits_inj'. intros n Hn.
  destruct (Z.ltb_spec n 16) as [Hlow|Hhigh].
  - rewrite !Z.mod_pow2_bits_low by lia.
    rewrite Z.lxor_spec, Z.lor_spec, Z.pow2_bits_eqb by lia.
    assert (Z.testbit flag n = false) as ->.
    { rewrite <- (Z.mod_pow2_bits_low flag 16 n) by lia.
      rewrite Hflag. apply Z.bits_0. }
    destruct (Z.eqb_spec k n) as [?|_]; [lia|]. reflexivity.
  - by rewrite !Z.mod_pow2_bits_high by lia.
Qed.

(** C2 (as amended). Let the template argument [ordinalflag], an [int],
    converted to the thunk type, have the top bit of that type (bit 31 or
    bit 63) and none of the low sixteen bits, as the 32-bit flag
    [0x80000000] does in both widths (it is [2^31] as a 32-bit thunk and is
    sign-extended as a 64-bit one), and let [N] be below the top bit.  The
    walk treats the thunk whose top bit is set and whose lower bits are [N]
    as an ordinal, and the ordinal it extracts is [N] reduced to 16 bits (the
    variable is a [u16]): it is [N] itself exactly when [N < 2^16]. *)
Theorem ordinal_of_flagged_thunk {EXT : PeExternals} (T : THUNK)
    (ordinalflag N : Z) (this : PeFormat.t) (descriptorname : string) :
  let top := 2 ^ (8 * sizeof T - 1) in
  - 2 ^ 31 <= ordinalflag < 2 ^ 31 ->
  Z.testbit (to_thunk T ordinalflag) (8 * sizeof T - 1) = true ->
  to_thunk T ordinalflag mod 2 ^ 16 = 0 ->
  0 <= N < top ->
  let v := Z.lor top N in
  Z.testbit v (8 * sizeof T - 1) = true /\
  v mod top = N /\
  PeFormat.ordinal T ordinalflag v = N mod 2 ^ 16 /\
  (N < 2 ^ 16 -> PeFormat.ordinal T ordinalflag v = N) /\
  (2 ^ 16 <= N -> PeFormat.ordinal T ordinalflag v <> N) /\
  PeFormat.importname_of T ordinalflag this descriptorname v
  = Some match PEImports_importName descriptorname (N mod 2 ^ 16) with
         | None => PEUtils_importName_ordinal descriptorname (N mod 2 ^ 16)
         | Some importname => PEUtils_importName descriptorname importname
         end.
Proof.
  intros top Hint Htop Hlow HN v.
  assert (16 <= 8 * sizeof T - 1) as Hk by (destruct T; simpl; lia).
  assert (PeFormat.ordinal T ordinalflag v = N mod 2 ^ 16) as Hord.
  { unfold PeFormat.ordinal, to_u16, to_unsigned, v, top.
    by apply lxor_low_bits. }
  split_and!.
  - apply lor_top_bit. lia.
  - unfold v, top. apply Z.bits_inj'. intros n Hn.
    destruct (Z.ltb_spec n (8 * sizeof T - 1)) as [Hlt|Hge].
    + rewrite Z.mod_pow2_bits_low, Z.lor_spec, Z.pow2_bits_eqb by lia.
      destruct (Z.eqb_spec (8 * sizeof T - 1) n) as [?|_]; [lia|done].
    + rewrite Z.mod_pow2_bits_high by lia.
      rewrite <- (Z.mod_small N (2 ^ (8 * sizeof T - 1))) by done.
      by rewrite Z.mod_pow2_bits_high by lia.
  - exact Hord.
  - intros Hsmall. rewrite Hord. apply Z.mod_small. lia.
  - intros Hlarge. rewrite Hord.
    pose proof (Z.mod_pos_bound N (2 ^ 16)). lia.
  - unfold PeFormat.importname_of. rewrite Hord.
    assert ((Z.land v (to_thunk T ordinalflag) =? 0) = false) as ->.
    { apply Z.eqb_neq. apply (land_common_bit _ _ (8 * sizeof T - 1)); [|done].
      apply lor_top_bit. lia. }
    by destruct (PEImports_importName _ _).
Qed.

(** Ordinal 5 behind the [int] flag [0x80000000], in a 32-bit and in a
    64-bit image. *)
Lemma ordinal_of_flagged_thunk_witness :
  (- 2 ^ 31 <= SampleImage.IMAGE_ORDINAL_FLAG32 < 2 ^ 31) /\
  to_thunk ImageThunkData32 SampleImage.IMAGE_ORDINAL_FLAG32 = 2 ^ 31 /\
  to_thunk ImageThunkData64 SampleImage.IMAGE_ORDINAL_FLAG32 = 0xFFFFFFFF80000000 /\
  PeFormat.ordinal ImageThunkData32 SampleImage.IMAGE_ORDINAL_FLAG32
    (Z.lor (2 ^ 31) 5) = 5 /\
  PeFormat.ordinal ImageThunkData64 SampleImage.IMAGE_ORDINAL_FLAG32
    (Z.lor (2 ^ 63) 5) = 5.
Proof.
  split_and!.
  - vm_compute. discriminate.
  - vm_compute. reflexivity.
  - reflexivity.
  - reflexivity.
  - refine (proj1 (proj2 (proj2 (proj2 (ordinal_of_flagged_thunk
              (EXT := SampleImage.externals)
              ImageThunkData32 SampleImage.IMAGE_ORDINAL_FLAG32 5
              SampleImage.pe32 "kernel32.dll" _ _ _ _)))) _).
    + vm_compute. split; [discriminate|reflexivity].
    + reflexivity.
    + reflexivity.
    + vm_compute. split; [discriminate|reflexivity].
    + reflexivity.
  - refine (proj1 (proj2 (proj2 (proj2 (ordinal_of_flagged_thunk
              (EXT := SampleImage.externals)
              ImageThunkData64 SampleImage.IMAGE_ORDINAL_FLAG32 5
              SampleImage.pe64 "kernel32.dll" _ _ _ _)))) _).
    + vm_compute. split; [discriminate|reflexivity].
    + reflexivity.
    + reflexivity.
    + vm_compute. split; [discriminate|reflexivity].
    + reflexivity.
Defined.

(** C2, the claim as written fails: [N = 0x10000] is below the 32-bit flag
    and the ordinal extracted from [flag | N] is 0. *)
Lemma ordinal_truncated_to_16_bits :
  0 <= 0x10000 < 2 ^ 31 /\
  to_thunk ImageThunkData32 SampleImage.IMAGE_ORDINAL_FLAG32 = 2 ^ 31 /\
  PeFormat.ordinal ImageThunkData32 SampleImage.IMAGE_ORDINAL_FLAG32
    (Z.lor (2 ^ 31) 0x10000) = 0 /\
  PeFormat.ordinal ImageThunkData32 SampleImage.IMAGE_ORDINAL_FLAG32
    (Z.lor (2 ^ 31) 0x10000) <> 0x10000.
Proof. vm_compute. split_and!; try reflexivity; discriminate. Qed.

(** An [int] cannot hold the flag of 64-bit thunks: whatever its value, its
    conversion to a 64-bit thunk is not [2^63]. *)
Lemma int_is_never_the_64_bit_flag (z : Z) :
  - 2 ^ 31 <= z < 2 ^ 31 -> to_thunk ImageThunkData64 z <> 2 ^ 63.
Proof.
  intros Hz. unfold to_thunk, to_unsigned. change (8 * sizeof ImageThunkData64) with 64.
  destruct (Z.neg_nonneg_cases z) as [Hneg|Hpos].
  - rewrite <- (Z_mod_plus_full z 1 (2 ^ 64)), Z.mod_small; lia.
  - rewrite Z.mod_small; lia.
Qed.

(** ** The walk on the sample images *)

(** The library name is compared in lower case: [MSVBVM60.DLL] marks the
    image as Visual Basic, and an empty table defines nothing. *)
Example readDescriptor_visual_basic :
  PeFormat.readDescriptor (EXT := SampleImage.externals) ImageThunkData32
    SampleImage.IMAGE_ORDINAL_FLAG32 SampleImage.descriptor_vb SampleImage.pe_vb
  = Some (PeFormat.with_petype PeType.VisualBasic SampleImage.pe_vb).
Proof. vm_compute. reflexivity. Qed.

(** Without original first thunks the walk reads the first thunks
    themselves, and the addresses are those of the slots it read. *)
Example readDescriptor_first_thunks_only :
  PeFormat.defined <$>
    PeFormat.readDescriptor (EXT := SampleImage.externals) ImageThunkData32
      SampleImage.IMAGE_ORDINAL_FLAG32 SampleImage.descriptor32_bound
      SampleImage.pe32
  = Some [Symbol.mk "kernel32.dll!ExitProcess" 0x400010 SymbolTypes.Import;
          Symbol.mk "kernel32.dll!#0x5" 0x400014 SymbolTypes.Import].
Proof. vm_compute. reflexivity. Qed.

(** With 64-bit thunks the same names come out, eight bytes apart. *)
Example readDescriptor_64_bit :
  PeFormat.defined <$>
    PeFormat.readDescriptor (EXT := SampleImage.externals) ImageThunkData64
      SampleImage.IMAGE_ORDINAL_FLAG32 SampleImage.descriptor64
      SampleImage.pe64
  = Some [Symbol.mk "kernel32.dll!ExitProcess" 0x140000030 SymbolTypes.Import;
          Symbol.mk "kernel32.dll!#0x5" 0x140000038 SymbolTypes.Import].
Proof. vm_compute. reflexivity. Qed.

(** The table the loader built, handed to the printer: a direct memory
    operand at an import's slot is printed with the import's name. *)
Example printer_uses_loaded_symbols :
  Printer.out (HX := Sample.hex)
    (Printer.mk (PeFormat.symboltable SampleImage.pe32_imports) Sample.reg_name)
    (Instruction.mem 0x400020 (Instruction.with_mnemonic "call" Sample.mov))
  = "call kernel32.dll!ExitProcess".
Proof. vm_compute. reflexivity. Qed.

(** * Further properties *)

(** ** [Segment] *)

Lemma to_u64_sub_idemp (a b : Z) : to_u64 (to_u64 a - b) = to_u64 (a - b).
Proof. unfold to_u64, to_unsigned. by rewrite Zminus_mod_idemp_l. Qed.

Lemma land_mod_pow2 (x t k : Z) :
  0 <= k -> 0 <= t < 2 ^ k -> Z.land (x mod 2 ^ k) t = Z.land x t.
Proof.
  intros Hk Ht. rewrite <- Z.land_ones by done.
  rewrite <- Z.land_assoc. f_equal.
  rewrite Z.land_comm, Z.land_ones by done. by apply Z.mod_small.
Qed.

Lemma land_lor_zero (x a b : Z) :
  (Z.land x (Z.lor a b) =? 0) = (Z.land x a =? 0) && (Z.land x b =? 0).
Proof.
  rewrite Z.land_lor_distr_r.
  destruct (Z.eqb_spec (Z.land x a) 0) as [Ha|Ha];
    destruct (Z.eqb_spec (Z.land x b) 0) as [Hb|Hb]; simpl;
    apply Z.eqb_eq || apply Z.eqb_neq; rewrite Z.lor_eq_0_iff; tauto.
Qed.

(** X1. The size of a segment built by the constructor is the size it was
    given, also when [address + size] passes [2^64]. *)
Theorem segment_size_roundtrip (name : string) (offset address size flags : Z) :
  0 <= size < 2 ^ 64 ->
  Segment.size (Segment.make name offset address size flags) = size.
Proof.
  intros Hsz. unfold Segment.size, Segment.make. simpl.
  rewrite to_u64_sub_idemp. replace (address + size - address) with size by lia.
  by apply to_unsigned_small.
Qed.

Lemma segment_size_roundtrip_witness :
  Segment.size SampleMore.text = 0x1000 /\ Segment.size SampleMore.wrapping = 0x2000.
Proof.
  split; apply segment_size_roundtrip; vm_compute; split; discriminate || reflexivity.
Defined.

(** X2. A segment built by the constructor contains exactly the addresses
    from [address] up to, not including, [address + size] when that sum
    fits in 64 bits; when the sum passes [2^64] the stored end lies below the
    start and the segment contains no address at all. *)
Theorem segment_contains (name : string) (offset address size flags a : Z) :
  0 <= address < 2 ^ 64 -> 0 <= size < 2 ^ 64 ->
  let s := Segment.make name offset address size flags in
  (address + size < 2 ^ 64 ->
     (Segment.contains s a = true <-> address <= a < address + size)) /\
  (2 ^ 64 <= address + size -> Segment.contains s a = false).
Proof.
  intros Ha Hsz s. unfold s, Segment.contains, Segment.make. simpl.
  unfold to_u64, to_unsigned. split.
  - intros Hfit. rewrite Z.mod_small by lia.
    rewrite andb_true_iff, Z.leb_le, Z.ltb_lt. done.
  - intros Hwrap.
    replace (address + size) with ((address + size - 2 ^ 64) + 1 * 2 ^ 64) by lia.
    rewrite Z_mod_plus_full, Z.mod_small by lia.
    apply andb_false_iff.
    destruct (Z.leb_spec address a); [right|by left].
    apply Z.ltb_ge. lia.
Qed.

Lemma segment_contains_witness :
  (Segment.contains SampleMore.text 0x401fff = true
     <-> 0x401000 <= 0x401fff < 0x401000 + 0x1000) /\
  Segment.contains SampleMore.wrapping 0xFFFFFFFFFFFFF800 = false.
Proof.
  split.
  - apply (segment_contains ".text" 0x400 0x401000 0x1000); vm_compute;
      try (split; discriminate || reflexivity); reflexivity.
  - apply (segment_contains ".high" 0 0xFFFFFFFFFFFFF000 0x2000); vm_compute;
      try (split; discriminate || reflexivity); discriminate.
Defined.

(** X3. [is] on a segment built by the constructor tests the flags as they
    were passed: narrowing them to the 32-bit member loses nothing a 32-bit
    mask can see; and a mask that is a union tests true when one of its
    parts does. *)
Theorem segment_is_flags (name : string) (offset address size flags t1 t2 : Z) :
  0 <= t1 < 2 ^ 32 ->
  let s := Segment.make name offset address size flags in
  Segment.is_ s t1 = negb (Z.land flags t1 =? 0) /\
  Segment.is_ s (Z.lor t1 t2) = Segment.is_ s t1 || Segment.is_ s t2.
Proof.
  intros Ht s. unfold s, Segment.is_, Segment.make. simpl. split.
  - unfold to_u32, to_unsigned. by rewrite land_mod_pow2.
  - rewrite land_lor_zero. by rewrite negb_andb.
Qed.

Lemma segment_is_flags_witness :
  Segment.is_ SampleMore.text SegmentTypes.Code = true /\
  Segment.is_ SampleMore.text (Z.lor SegmentTypes.Code SegmentTypes.Write) = true.
Proof.
  destruct (segment_is_flags ".text" 0x400 0x401000 0x1000
              (Z.lor SegmentTypes.Code SegmentTypes.Read)
              SegmentTypes.Code SegmentTypes.Write) as [H1 H2].
  - vm_compute. split; discriminate || reflexivity.
  - unfold SampleMore.text. split; [rewrite H1|rewrite H2, H1]; reflexivity.
Defined.

(** ** [Buffer] *)

Lemma buffer_plus_assign (b : Buffer.t) (v : Z) :
  Buffer.plus_assign b v = Buffer.plus b v.
Proof. reflexivity. Qed.

Lemma increments_plus (n : nat) (b : Buffer.t) :
  0 <= Buffer.length b < 2 ^ 64 ->
  increments n b = Buffer.plus b (Z.of_nat n).
Proof.
  revert b. induction n as [|n IH]; intros b Hlen.
  - destruct b as [p l]. unfold Buffer.plus. simpl in *.
    rewrite Z.add_0_r, Z.sub_0_r. unfold to_u64. by rewrite to_unsigned_small.
  - cbn [increments]. rewrite IH.
    + unfold Buffer.increment, Buffer.plus_assign, Buffer.plus. simpl.
      rewrite to_u64_sub_idemp. f_equal; [lia|f_equal; lia].
    + unfold Buffer.increment, Buffer.plus_assign. simpl.
      apply to_unsigned_range. lia.
Qed.

(** X4. Advancing a buffer twice is advancing it once by the sum, and [+=]
    computes what [+] computes; index [i] of the buffer advanced by [v] is
    index [v + i] of the original as long as [i] and [v + i] are values of
    [int], the type of the index, and [*] after an advance by such a [v] is
    index [v]. *)
Theorem buffer_advance (memory : list byte) (b : Buffer.t) (v w i : Z) :
  Buffer.plus (Buffer.plus b v) w = Buffer.plus b (v + w) /\
  Buffer.plus_assign (Buffer.plus_assign b v) w = Buffer.plus b (v + w) /\
  (- 2 ^ 31 <= i < 2 ^ 31 -> - 2 ^ 31 <= v + i < 2 ^ 31 ->
     Buffer.at_ memory (Buffer.plus b v) i = Buffer.at_ memory b (v + i)) /\
  (- 2 ^ 31 <= v < 2 ^ 31 ->
     Buffer.deref memory (Buffer.plus b v) = Buffer.at_ memory b v).
Proof.
  unfold Buffer.plus_assign, Buffer.plus, Buffer.at_, Buffer.deref. simpl.
  rewrite to_u64_sub_idemp. split_and!.
  - f_equal; [lia|f_equal; lia].
  - f_equal; [lia|f_equal; lia].
  - intros Hi Hvi. rewrite !to_s32_small by done. f_equal. lia.
  - intros Hv. by rewrite to_s32_small.
Qed.

(** Index 2 after an advance by 3 is index 5, the byte [0x15]. *)
Lemma buffer_advance_witness :
  Buffer.at_ SampleMore.memory (Buffer.plus SampleMore.whole 3) 2
    = Buffer.at_ SampleMore.memory SampleMore.whole (3 + 2) /\
  Buffer.at_ SampleMore.memory SampleMore.whole (3 + 2) = Some x15 /\
  Buffer.deref SampleMore.memory (Buffer.plus SampleMore.whole 3)
    = Buffer.at_ SampleMore.memory SampleMore.whole 3.
Proof.
  destruct (buffer_advance SampleMore.memory SampleMore.whole 3 0 2)
    as (_ & _ & Hat & Hderef).
  split_and!.
  - apply Hat; vm_compute; split; discriminate || reflexivity.
  - reflexivity.
  - apply Hderef; vm_compute; split; discriminate || reflexivity.
Defined.

(** X5. While the advance stays inside the buffer, the end of the buffer
    ([data + length]) does not move and the length shrinks by the advance. *)
Theorem buffer_end_fixed (b : Buffer.t) (v : Z) :
  0 <= v <= Buffer.length b -> Buffer.length b < 2 ^ 64 ->
  Buffer.length (Buffer.plus b v) = Buffer.length b - v /\
  Buffer.data (Buffer.plus b v) + Buffer.length (Buffer.plus b v)
  = Buffer.data b + Buffer.length b.
Proof.
  intros Hv Hlen. unfold Buffer.plus. simpl. unfold to_u64.
  rewrite to_unsigned_small by lia. lia.
Qed.

Lemma buffer_end_fixed_witness :
  Buffer.length (Buffer.plus SampleMore.whole 3) = 8 - 3 /\
  Buffer.data (Buffer.plus SampleMore.whole 3)
    + Buffer.length (Buffer.plus SampleMore.whole 3) = 0 + 8.
Proof.
  apply (buffer_end_fixed SampleMore.whole 3); vm_compute;
    [split; discriminate|reflexivity].
Defined.

Lemma plus_eob_iff (b : Buffer.t) (v : Z) :
  0 <= Buffer.length b < 2 ^ 64 -> 0 <= v < 2 ^ 64 ->
  Buffer.eob (Buffer.plus b v) = true <-> v = Buffer.length b.
Proof.
  intros Hlen Hv. unfold Buffer.eob, Buffer.plus. simpl.
  unfold to_u64, to_unsigned. rewrite Z.eqb_eq. split.
  - intros Hz. destruct (Z.le_gt_cases v (Buffer.length b)) as [Hle|Hgt].
    + rewrite Z.mod_small in Hz by lia. lia.
    + replace (Buffer.length b - v)
        with ((Buffer.length b - v + 2 ^ 64) + (-1) * 2 ^ 64) in Hz by lia.
      rewrite Z_mod_plus_full, Z.mod_small in Hz by lia. lia.
  - intros ->. by rewrite Z.sub_diag.
Qed.

(** X6. After an advance by [v], [eob] holds exactly when [v] is the length:
    it does not hold before the end, and it does not hold past the end
    either, where the unsigned length has wrapped around. *)
Theorem buffer_eob_exactly_at_end (b : Buffer.t) (v : Z) :
  0 <= Buffer.length b < 2 ^ 64 -> 0 <= v < 2 ^ 64 ->
  (Buffer.eob (Buffer.plus b v) = true <-> v = Buffer.length b) /\
  (Buffer.length b < v ->
     Buffer.length (Buffer.plus b v) = 2 ^ 64 - (v - Buffer.length b)).
Proof.
  intros Hlen Hv. split; [by apply plus_eob_iff|].
  intros Hgt. unfold Buffer.plus. simpl. unfold to_u64, to_unsigned.
  replace (Buffer.length b - v)
    with ((Buffer.length b - v + 2 ^ 64) + (-1) * 2 ^ 64) by lia.
  rewrite Z_mod_plus_full, Z.mod_small by lia. lia.
Qed.

Lemma buffer_eob_exactly_at_end_witness :
  (Buffer.eob (Buffer.plus SampleMore.whole 8) = true <-> 8 = 8) /\
  (8 < 9 -> Buffer.length (Buffer.plus SampleMore.whole 9) = 2 ^ 64 - (9 - 8)).
Proof.
  split.
  - apply (buffer_eob_exactly_at_end SampleMore.whole 8); vm_compute;
      split; discriminate || reflexivity.
  - apply (buffer_eob_exactly_at_end SampleMore.whole 9); vm_compute;
      split; discriminate || reflexivity.
Defined.

(** X7. Post-incrementing a buffer [n] times is advancing it by [n]: a
    buffer of [n] bytes is at its end after [n] increments and after no
    fewer. *)
Theorem buffer_increments (b : Buffer.t) (n : nat) :
  0 <= Buffer.length b < 2 ^ 64 -> Z.of_nat n < 2 ^ 64 ->
  increments n b = Buffer.plus b (Z.of_nat n) /\
  (Buffer.eob (increments n b) = true <-> Z.of_nat n = Buffer.length b).
Proof.
  intros Hlen Hn. rewrite increments_plus by done. split; [done|].
  apply plus_eob_iff; lia.
Qed.

Lemma buffer_increments_witness :
  increments 8 SampleMore.whole = Buffer.plus SampleMore.whole 8 /\
  (Buffer.eob (increments 8 SampleMore.whole) = true <-> 8 = 8).
Proof.
  apply (buffer_increments SampleMore.whole 8); vm_compute;
    [split; discriminate || reflexivity|reflexivity].
Defined.

(** ** [Instruction]: flags, appends, comments, destruction *)

Lemma to_s64_to_u64 (v : Z) : - 2 ^ 63 <= v < 2 ^ 63 -> to_s64 (to_u64 v) = v.
Proof.
  intros Hv. unfold to_s64, to_u64, to_signed, to_unsigned.
  change (2 ^ (64 - 1)) with (2 ^ 63). change (2 ^ 64) with (2 * 2 ^ 63) in *.
  rewrite Zplus_mod_idemp_l, Z.mod_small; lia.
Qed.

Section Flags.
Context {W : Type}.
Implicit Types (i : Instruction.t W) (c : Builder.call).

Lemma run1_frame c i (ops : list Operand.t) :
  Instruction.with_operands ops (Builder.run1 c i)
  = Instruction.with_operands ops i.
Proof. destruct i, c; reflexivity. Qed.

Lemma run_with_operands (cs : list Builder.call) i (ops : list Operand.t) :
  Instruction.with_operands ops (Builder.run cs i)
  = Instruction.with_operands ops i.
Proof.
  induction cs as [|c cs IH] using rev_ind; [done|].
  by rewrite run_snoc, run1_frame.
Qed.

Lemma run_frame (cs : list Builder.call) i :
  Instruction.with_operands (Instruction.operands i) (Builder.run cs i) = i.
Proof. rewrite run_with_operands. by destruct i. Qed.

Lemma run_fields (cs : list Builder.call) i :
  Instruction.type (Builder.run cs i) = Instruction.type i /\
  Instruction.address (Builder.run cs i) = Instruction.address i /\
  Instruction.size_ (Builder.run cs i) = Instruction.size_ i /\
  Instruction.comments (Builder.run cs i) = Instruction.comments i /\
  Instruction.mnemonic (Builder.run cs i) = Instruction.mnemonic i.
Proof.
  split_and!.
  - exact (f_equal Instruction.type (run_frame cs i)).
  - exact (f_equal Instruction.address (run_frame cs i)).
  - exact (f_equal Instruction.size_ (run_frame cs i)).
  - exact (f_equal Instruction.comments (run_frame cs i)).
  - exact (f_equal Instruction.mnemonic (run_frame cs i)).
Qed.
End Flags.

(** X8. A mask that is a union tests true exactly when one of its parts
    does, so [is(Branch)] is [is(Jump)] or [is(Call)]; and an instruction for
    which [isInvalid] holds passes [is(Invalid)]. *)
Theorem instruction_is_union {W : Type} (i : Instruction.t W) (a b : Z) :
  Instruction.is_ i (Z.lor a b) = Instruction.is_ i a || Instruction.is_ i b /\
  Instruction.is_ i InstructionTypes.Branch
    = Instruction.is_ i InstructionTypes.Jump
      || Instruction.is_ i InstructionTypes.Call /\
  (Instruction.isInvalid i = true ->
     Instruction.is_ i InstructionTypes.Invalid = true).
Proof.
  unfold Instruction.is_, InstructionTypes.Branch. rewrite !land_lor_zero.
  split_and!; [by rewrite negb_andb|by rewrite negb_andb|].
  unfold Instruction.isInvalid. intros ->%Z.eqb_eq. reflexivity.
Qed.

(** X9. After [reset] no flag test holds, whatever the mask, and the
    instruction is not invalid; the append operations and [cmt] change none
    of the members a flag test or [endAddress] reads. *)
Theorem flags_after_reset_and_appends {W : Type} (i : Instruction.t W) (w : W)
    (cs : list Builder.call) (s : string) (t : Z) :
  Instruction.is_ (Instruction.reset i w).1 t = false /\
  Instruction.isInvalid (Instruction.reset i w).1 = false /\
  Instruction.is_ (Builder.run cs i) t = Instruction.is_ i t /\
  Instruction.isInvalid (Builder.run cs i) = Instruction.isInvalid i /\
  Instruction.endAddress (Builder.run cs i) = Instruction.endAddress i /\
  Instruction.is_ (Instruction.cmt s i) t = Instruction.is_ i t.
Proof.
  destruct (run_fields cs i) as (Hty & Haddr & Hsz & _).
  unfold Instruction.is_, Instruction.isInvalid, Instruction.endAddress.
  rewrite reset_type, Hty, Haddr, Hsz. by split_and!.
Qed.

(** X10. The append operations write the operand sequence and nothing
    else: after any chain of appends the release routine, mnemonic,
    signature, comments, address, type, size, segment and payload are those
    of the instruction the chain started from. *)
Theorem appends_frame {W : Type} (i : Instruction.t W) (cs : list Builder.call) :
  Builder.run cs i
  = Instruction.with_operands (Instruction.operands (Builder.run cs i)) i.
Proof.
  rewrite <- (run_with_operands cs i). by destruct (Builder.run cs i).
Qed.

(** X11. The value given to [imm] comes back from the operand: as [s_value]
    for every signed 64-bit value, as [u_value] for every unsigned one; a
    negative value reads as [u_value] in two's complement.  The address
    given to [mem] comes back as [u_value]. *)
Theorem imm_mem_value {W : Type} (i : Instruction.t W) (v : Z) :
  (exists o,
     Instruction.operands (Instruction.imm v i) = Instruction.operands i ++ [o] /\
     Operand.type o = OperandTypes.Immediate /\
     (- 2 ^ 63 <= v < 2 ^ 63 -> Operand.s_value o = v) /\
     (0 <= v < 2 ^ 64 -> Operand.u_value o = v) /\
     (- 2 ^ 63 <= v < 0 -> Operand.u_value o = v + 2 ^ 64)) /\
  (exists o,
     Instruction.operands (Instruction.mem v i) = Instruction.operands i ++ [o] /\
     Operand.type o = OperandTypes.Memory /\
     (0 <= v < 2 ^ 64 -> Operand.u_value o = v)).
Proof.
  split; eexists; (split; [reflexivity|]); (split; [reflexivity|]).
  - unfold Operand.s_value. simpl. split_and!.
    + apply to_s64_to_u64.
    + intros Hv. by apply to_unsigned_small.
    + intros Hv. unfold to_u64, to_unsigned.
      rewrite <- (Z_mod_plus_full v 1 (2 ^ 64)), Z.mod_small; lia.
  - simpl. intros Hv. by apply to_unsigned_small.
Qed.

(** X12. After [reset] the positions start again: the operand that a chain
    of appends on the reset instruction puts at index [k] has [pos = k]. *)
Theorem positions_restart_after_reset {W : Type} (i : Instruction.t W) (w : W)
    (cs : list Builder.call) (k : nat) (o : Operand.t) :
  size cs <= 2 ^ 31 ->
  Instruction.operands (Builder.run cs (Instruction.reset i w).1) !! k = Some o ->
  Operand.pos o = Z.of_nat k.
Proof.
  intros Hsz Hk.
  destruct (run_operands cs (Instruction.reset i w).1) as (news & Hops & _ & Hpos).
  { rewrite reset_operands. unfold size in *. simpl. lia. }
  rewrite Hops, reset_operands in Hk. simpl in Hk.
  rewrite (Hpos k o Hk), reset_operands. unfold size. simpl. lia.
Qed.

Lemma positions_restart_after_reset_witness :
  size [Builder.Imm 7; Builder.Reg Sample.EBX 0] <= 2 ^ 31 /\
  (forall o,
     Instruction.operands
       (Builder.run [Builder.Imm 7; Builder.Reg Sample.EBX 0]
          (Instruction.reset Sample.mov_eax_ebx_0x10 []).1) !! 1%nat = Some o ->
     Operand.pos o = 1).
Proof.
  split; [vm_compute; discriminate|].
  intros o. apply (positions_restart_after_reset Sample.mov_eax_ebx_0x10 []
                     [Builder.Imm 7; Builder.Reg Sample.EBX 0] 1 o).
  vm_compute. discriminate.
Defined.

(** X13. Comments and operands do not interfere: [cmt] commutes with every
    append operation, appends its text after the comments already there, and
    leaves the operands alone. *)
Theorem cmt_commutes_with_appends {W : Type} (i : Instruction.t W)
    (cs : list Builder.call) (s : string) :
  Instruction.cmt s (Builder.run cs i) = Builder.run cs (Instruction.cmt s i) /\
  Instruction.comments (Instruction.cmt s (Builder.run cs i))
    = Instruction.comments i ++ [s] /\
  Instruction.operands (Instruction.cmt s (Builder.run cs i))
    = Instruction.operands (Builder.run cs i).
Proof.
  assert (forall c (j : Instruction.t W),
            Instruction.cmt s (Builder.run1 c j) = Builder.run1 c (Instruction.cmt s j))
    as Hone by (intros c j; destruct c; reflexivity).
  assert (Instruction.cmt s (Builder.run cs i) = Builder.run cs (Instruction.cmt s i))
    as Hcomm.
  { induction cs as [|c cs IH] using rev_ind; [done|].
    by rewrite !run_snoc, Hone, IH. }
  split_and!; [done| |done].
  destruct (run_fields cs i) as (_ & _ & _ & Hc & _).
  unfold Instruction.cmt. simpl. by rewrite Hc.
Qed.

(** X14. Destroying an instruction releases what [reset] would; after any
    number of resets, destruction releases nothing more, so a payload is
    released once over the whole life of the instruction. *)
Theorem destroy_after_reset {W : Type} (i : Instruction.t W) (w : W) (n : nat) :
  destroy i w = (Instruction.reset i w).2 /\
  destroy (resets (S n) i w).1 (resets (S n) i w).2 = (Instruction.reset i w).2 /\
  (forall f, Instruction.free i = Some f -> Instruction.userdata i <> NULL ->
     destroy (resets (S n) i w).1 (resets (S n) i w).2
     = f (Instruction.userdata i) w).
Proof.
  unfold destroy. rewrite resets_succ, reset_reset. split_and!; [done|done|].
  intros f Hf Hu. by apply reset_releases.
Qed.

Lemma destroy_after_reset_witness :
  destroy (resets 2 Sample.with_payload []).1 (resets 2 Sample.with_payload []).2
  = [0x1000].
Proof.
  refine (proj2 (proj2 (destroy_after_reset Sample.with_payload [] 1))
            Sample.record_release _ _); [reflexivity|vm_compute; discriminate].
Defined.

(** ** [Printer]: callback, line, and what the builders print *)

Section Callback.
Context {HX : Hex}.
Variable this : Printer.t.

Lemma out_loop_calls {C : Type} (f : Operand.t -> string -> C -> C)
    (first : bool) (ops : list Operand.t) (s : string) (c : C) :
  (Printer.out_loop this (Some f) first ops s c).2
  = foldl (fun c p => f p.1 p.2 c) c (rendered this ops).
Proof.
  revert first s c. induction ops as [|o ops IH]; intros first s c; [done|].
  simpl. unfold rendered. cbn [omap list_omap].
  destruct (Printer.opstr this o) as [text|]; simpl; apply IH.
Qed.

Lemma out_loop_no_callback {C : Type} (first : bool) (ops : list Operand.t)
    (s : string) (c : C) :
  (Printer.out_loop this None first ops s c).2 = c.
Proof.
  revert first s c. induction ops as [|o ops IH]; intros first s c; [done|].
  simpl. destruct (Printer.opstr this o) as [text|]; apply IH.
Qed.

Lemma opstr_renderable (o : Operand.t) :
  is_Some (Printer.opstr this o) <-> renderable o = true.
Proof.
  unfold Printer.opstr, renderable.
  destruct (Operand.is_ o OperandTypes.Immediate),
    (Operand.is_ o OperandTypes.Memory),
    (Operand.is_ o OperandTypes.Displacement),
    (Operand.is_ o OperandTypes.Register); simpl;
    split; intros Hs; try done; try (by eexists); by destruct Hs.
Qed.
End Callback.

Lemma run1_renderable {W : Type} (c : Builder.call) (i : Instruction.t W) :
  typed_call c = true ->
  exists o,
    Instruction.operands (Builder.run1 c i) = Instruction.operands i ++ [o] /\
    renderable o = true.
Proof.
  destruct c; simpl; intros Hc; eexists; (split; [reflexivity|]);
    try reflexivity.
  exact Hc.
Qed.

Lemma run_renderable {W : Type} (cs : list Builder.call) (i : Instruction.t W) :
  Forall (fun o => renderable o = true) (Instruction.operands i) ->
  Forall (fun c => typed_call c = true) cs ->
  Forall (fun o => renderable o = true) (Instruction.operands (Builder.run cs i)).
Proof.
  intros Hi. induction cs as [|c cs IH] using rev_ind; intros Hcs; [done|].
  apply Forall_app in Hcs as [Hcs Hc]. apply Forall_inv in Hc.
  rewrite run_snoc.
  destruct (run1_renderable c (Builder.run cs i) Hc) as (o & -> & Ho).
  apply Forall_app. split; [by apply IH|by constructor].
Qed.

(** X15. The callback of [Printer::out] is called once for every operand
    that is rendered, in operand order, with the operand and its text, and
    never for a skipped operand; an empty callback is not called; and the
    text returned is the same whatever the callback. *)
Theorem callback_sees_rendered_operands {HX : Hex} (this : Printer.t)
    {W C : Type} (i : Instruction.t W) (f : Operand.t -> string -> C -> C)
    (c : C) :
  (Printer.out_with this i (Some f) c).2
    = foldl (fun c p => f p.1 p.2 c) c (rendered this (Instruction.operands i)) /\
  (Printer.out_with this i None c).2 = c /\
  (Printer.out_with this i (Some f) c).1 = Printer.out this i /\
  (Printer.out_with this i None c).1 = Printer.out this i.
Proof.
  unfold Printer.out_with. rewrite out_loop_calls, out_loop_no_callback.
  split_and!; [done|done| |].
  - apply (out_with_callback this i (Some f) c).
  - apply (out_with_callback this i None c).
Qed.

(** X16. The line [Printer::out] returns is the mnemonic alone when there
    are no operands; otherwise the mnemonic, a blank, and what the operands
    add (their text, or nothing for a skipped one) with one [", "] between
    every two consecutive operands. *)
Theorem out_line {HX : Hex} (this : Printer.t) {W : Type} (i : Instruction.t W) :
  Printer.out this i =
  match Instruction.operands i with
  | [] => Instruction.mnemonic i
  | ops =>
      Instruction.mnemonic i +:+ " " +:+ String.concat ", " (map (added this) ops)
  end.
Proof.
  unfold Printer.out, Printer.out_with.
  destruct (Instruction.operands i) as [|o ops]; [reflexivity|].
  change (negb (vempty (o :: ops))) with true. cbv iota.
  rewrite out_loop_first, concat_cons_rest. by rewrite append_assoc.
Qed.

(** X17. An instruction whose operands were all added by [reg], [imm], [mem],
    [disp], or by [op] with an operand of one of the four rendered types, is
    printed as the mnemonic followed by the operand texts joined by [", "]:
    no operand is skipped and no separator is stray. *)
Theorem built_instruction_line {HX : Hex} (this : Printer.t) {W : Type}
    (i : Instruction.t W) (cs : list Builder.call) :
  Forall (fun o => renderable o = true) (Instruction.operands i) ->
  Forall (fun c => typed_call c = true) cs ->
  Printer.out this (Builder.run cs i) = out_claimed this (Builder.run cs i).
Proof.
  intros Hi Hcs. apply out_all_rendered.
  eapply Forall_impl; [by apply run_renderable|].
  intros o Ho. by apply opstr_renderable.
Qed.

Lemma built_instruction_line_witness :
  Printer.out (HX := Sample.hex) Sample.printer
    (Builder.run [Builder.Reg Sample.EAX 0; Builder.Disp2 Sample.EBX 0x10] Sample.mov)
  = out_claimed (HX := Sample.hex) Sample.printer
      (Builder.run [Builder.Reg Sample.EAX 0; Builder.Disp2 Sample.EBX 0x10] Sample.mov).
Proof.
  apply (built_instruction_line (HX := Sample.hex) Sample.printer Sample.mov).
  - apply Forall_nil_2.
  - repeat constructor.
Defined.

Lemma mem_shape {HX : Hex} (this : Printer.t) (memop : MemoryOperand.t) :
  Printer.mem this memop = "" \/
  exists s, s <> "" /\ Printer.mem this memop = "[" +:+ s +:+ "]".
Proof.
  unfold Printer.mem.
  match goal with
  | |- (if negb (empty ?s) then _ else _) = _ \/ _ => destruct s as [|c s'] eqn:E
  end.
  - by left.
  - right. by exists (String c s').
Qed.

(** X18. [Printer::mem] returns either the empty string or a non-empty
    text between brackets; and, register names and displacement text being
    non-empty, it returns the empty string exactly for the operand that is
    displacement-only with a zero displacement, whatever its scale: that is
    the one case a caller has to treat as "no operand". *)
Theorem mem_empty_iff {HX : Hex} (this : Printer.t) (memop : MemoryOperand.t) :
  (RegisterOperand.isValid (MemoryOperand.base memop) = true ->
     Printer.reg this (MemoryOperand.base memop) <> "") ->
  (RegisterOperand.isValid (MemoryOperand.index memop) = true ->
     Printer.reg this (MemoryOperand.index memop) <> "") ->
  (MemoryOperand.displacement memop <> 0 -> displacement_text this memop <> "") ->
  (Printer.mem this memop = ""
     <-> MemoryOperand.displacementOnly memop = true /\
         MemoryOperand.displacement memop = 0) /\
  (Printer.mem this memop = "" \/
   exists s, s <> "" /\ Printer.mem this memop = "[" +:+ s +:+ "]").
Proof.
  intros Hb Hi Hd. split; [|apply mem_shape].
  unfold Printer.mem, MemoryOperand.displacementOnly, displacement_text in *.
  destruct (RegisterOperand.isValid (MemoryOperand.base memop));
  destruct (RegisterOperand.isValid (MemoryOperand.index memop));
  destruct (1 <? MemoryOperand.scale memop);
  (destruct (Z.eqb_spec (MemoryOperand.displacement memop) 0) as [E0|E0]);
  (destruct (Z.ltb_spec 0 (MemoryOperand.displacement memop)) as [Ep|Ep]);
  destruct (SymbolTable.symbol _ _) as [sym|];
  try lia;
  try (specialize (Hb eq_refl)); try (specialize (Hi eq_refl));
  try (specialize (Hd E0));
  try (destruct (Printer.reg this (MemoryOperand.base memop)) as [|cb rb]; [done|]);
  try (destruct (Printer.reg this (MemoryOperand.index memop)) as [|ci ri]; [done|]);
  try (destruct (Symbol.name sym) as [|cn rn]; [done|]);
  try (destruct (hex_s64 (MemoryOperand.displacement memop)) as [|ch rh]; [done|]);
  simpl; str_norm; split; try done; intros [? ?]; done.
Qed.

Lemma mem_empty_iff_witness :
  Printer.mem (HX := Sample.hex) Sample.printer MemoryOperand.default = "" /\
  Printer.mem (HX := Sample.hex) Sample.printer Sample.ebx_ecx4_0x10 <> "".
Proof.
  split.
  - apply (mem_empty_iff (HX := Sample.hex) Sample.printer MemoryOperand.default);
      try (intros H; vm_compute in H; done).
    by split.
  - intros Hempty.
    apply (mem_empty_iff (HX := Sample.hex) Sample.printer Sample.ebx_ecx4_0x10)
      in Hempty as [Hd _]; try (intros _; vm_compute; discriminate).
    vm_compute in Hd. discriminate.
Defined.

(** X19. The operand appended by [disp(base, displacement)] has no index
    register and scale one, and is displacement-only exactly when [base] is
    [REGISTER_INVALID]; a displacement-only operand is printed as its
    displacement text alone between brackets, and as nothing when the
    displacement is zero. *)
Theorem displacement_only_text {HX : Hex} (this : Printer.t) {W : Type}
    (i : Instruction.t W) (base d : Z) :
  exists o,
    Instruction.operands (Instruction.disp base d i) = Instruction.operands i ++ [o] /\
    Operand.type o = OperandTypes.Displacement /\
    RegisterOperand.isValid (MemoryOperand.index (Operand.mem o)) = false /\
    MemoryOperand.scale (Operand.mem o) = 1 /\
    (MemoryOperand.displacementOnly (Operand.mem o) = true
       <-> base = REGISTER_INVALID) /\
    (base = REGISTER_INVALID -> to_s64 d = 0 ->
       Printer.mem this (Operand.mem o) = "") /\
    (base = REGISTER_INVALID -> to_s64 d <> 0 ->
     displacement_text this (Operand.mem o) <> "" ->
       Printer.mem this (Operand.mem o)
       = "[" +:+ displacement_text this (Operand.mem o) +:+ "]").
Proof.
  eexists. split; [reflexivity|]. simpl. split_and!; try reflexivity.
  - unfold MemoryOperand.displacementOnly, RegisterOperand.isValid. simpl.
    destruct (Z.eqb_spec base REGISTER_INVALID); simpl; split; done.
  - intros -> Hd. unfold Printer.mem. simpl. by rewrite Hd.
  - intros -> Hd. unfold Printer.mem, displacement_text. simpl.
    destruct (Z.eqb_spec (to_s64 d) 0) as [?|_]; [done|]. simpl.
    destruct (SymbolTable.symbol _ _) as [sym|]; simpl.
    + destruct (Symbol.name sym); [done|]. intros _. reflexivity.
    + destruct (hex_s64 (to_s64 d)); [done|]. intros _. reflexivity.
Qed.

Lemma displacement_only_text_witness :
  exists o,
    Instruction.operands (Instruction.disp REGISTER_INVALID 0x401000 Sample.mov)
      = [o] /\
    Printer.mem (HX := Sample.hex) Sample.printer (Operand.mem o)
      = "[" +:+ displacement_text (HX := Sample.hex) Sample.printer (Operand.mem o)
        +:+ "]".
Proof.
  destruct (displacement_only_text (HX := Sample.hex) Sample.printer
              Sample.mov REGISTER_INVALID 0x401000)
    as (o & Hops & _ & _ & _ & _ & _ & Hmem).
  exists o. split; [exact Hops|].
  injection Hops as <-.
  apply Hmem; [reflexivity|vm_compute; discriminate|vm_compute; discriminate].
Defined.

(** X20. What [imm] and [mem] append is what is printed: on an instruction
    without operands, [imm(v)] prints the hexadecimal text of [v] itself for
    every signed 64-bit [v], and [mem(v)] that of the address [v], unless a
    symbol is defined at that value (for a negative immediate, at its two's
    complement), in which case the symbol's name is printed. *)
Theorem imm_mem_line {HX : Hex} (this : Printer.t) {W : Type}
    (i : Instruction.t W) (v : Z) :
  Instruction.operands i = [] ->
  let symbol := SymbolTable.symbol (Printer._symboltable this) (to_u64 v) in
  (- 2 ^ 63 <= v < 2 ^ 63 -> symbol = None ->
     Printer.out this (Instruction.imm v i)
     = Instruction.mnemonic i +:+ " " +:+ hex_s64 v) /\
  (0 <= v < 2 ^ 64 -> symbol = None ->
     Printer.out this (Instruction.mem v i)
     = Instruction.mnemonic i +:+ " " +:+ hex_u64 v) /\
  (forall sym, symbol = Some sym ->
     Printer.out this (Instruction.imm v i)
     = Instruction.mnemonic i +:+ " " +:+ Symbol.name sym /\
     Printer.out this (Instruction.mem v i)
     = Instruction.mnemonic i +:+ " " +:+ Symbol.name sym).
Proof.
  intros Hnil symbol.
  assert (forall o text,
            Printer.opstr this o = Some text ->
            Printer.out this (Instruction.push_back o i)
            = Instruction.mnemonic i +:+ " " +:+ text) as Hline.
  { intros o text Htext. unfold Printer.out. rewrite out_with_text.
    unfold Instruction.push_back.
    cbn [Instruction.operands Instruction.with_operands Instruction.mnemonic].
    rewrite Hnil. cbn [app map String.concat]. unfold added. by rewrite Htext. }
  assert (to_u64 (to_u64 v) = to_u64 v) as Hidem.
  { unfold to_u64, to_unsigned. by rewrite Zmod_mod. }
  split_and!.
  - intros Hv Hnone. apply Hline. unfold Printer.opstr. simpl.
    rewrite to_u64_s_value. simpl. rewrite Hidem. fold symbol. rewrite Hnone.
    unfold Operand.s_value. simpl. by rewrite to_s64_to_u64.
  - intros Hv Hnone. apply Hline. unfold Printer.opstr. simpl.
    rewrite Hidem. fold symbol. rewrite Hnone.
    unfold to_u64. by rewrite to_unsigned_small.
  - intros sym Hsym. split; apply Hline; unfold Printer.opstr; simpl.
    + rewrite to_u64_s_value. simpl. rewrite Hidem. fold symbol. by rewrite Hsym.
    + rewrite Hidem. fold symbol. by rewrite Hsym.
Qed.

Lemma imm_mem_line_witness :
  Printer.out (HX := Sample.hex) Sample.printer (Instruction.imm (-1) Sample.mov)
    = "mov -0x1" /\
  Printer.out (HX := Sample.hex) Sample.printer_myFunc
    (Instruction.mem 0x401000 Sample.mov) = "mov myFunc".
Proof.
  split.
  - refine (proj1 (imm_mem_line (HX := Sample.hex) Sample.printer Sample.mov
                     (-1) _) _ _); [reflexivity| |reflexivity].
    vm_compute. split; discriminate || reflexivity.
  - refine (proj2 (proj2 (proj2 (imm_mem_line (HX := Sample.hex)
              Sample.printer_myFunc Sample.mov 0x401000 _))
              (Symbol.mk "myFunc" 0x401000 SymbolTypes.Import) _));
      reflexivity.
Defined.

(** X21. Defining a symbol changes the text of exactly the operands whose
    value is the address defined: an Immediate or Memory operand with that
    value, or a Displacement operand with that displacement, gets the name;
    every other operand is printed as before. *)
Theorem define_is_local {HX : Hex} (st : gmap Z Symbol.t)
    (reg : RegisterOperand.t -> string) (a : Z) (name : string)
    (kind : SymbolTypes.t) (o : Operand.t) :
  let before := Printer.mk st reg in
  let after := Printer.mk (SymbolTable.define a name kind st) reg in
  (Operand.type o = OperandTypes.Immediate \/ Operand.type o = OperandTypes.Memory ->
     (to_u64 (Operand.u_value o) = a -> Printer.opstr after o = Some name) /\
     (to_u64 (Operand.u_value o) <> a ->
        Printer.opstr after o = Printer.opstr before o)) /\
  (Operand.type o = OperandTypes.Displacement ->
   to_u64 (MemoryOperand.displacement (Operand.mem o)) <> a ->
     Printer.opstr after o = Printer.opstr before o) /\
  (Operand.type o = OperandTypes.Register ->
     Printer.opstr after o = Printer.opstr before o).
Proof.
  cbv zeta. split_and!.
  - intros Hty.
    assert (Operand.is_ o OperandTypes.Immediate || Operand.is_ o OperandTypes.Memory
            = true) as Hkind.
    { unfold Operand.is_. destruct Hty as [-> | ->]; reflexivity. }
    unfold Printer.opstr. rewrite Hkind, opstr_lookup_key. simpl.
    unfold SymbolTable.symbol, SymbolTable.define. split.
    + intros ->. by rewrite lookup_insert_eq.
    + intros Hne. by rewrite lookup_insert_ne.
  - intros Hty Hne. unfold Printer.opstr, Operand.is_. rewrite Hty. simpl.
    f_equal. unfold Printer.mem. simpl.
    unfold SymbolTable.symbol, SymbolTable.define.
    by rewrite lookup_insert_ne.
  - intros Hty. unfold Printer.opstr, Operand.is_. rewrite Hty. reflexivity.
Qed.

Lemma define_is_local_witness :
  Printer.opstr (HX := Sample.hex) Sample.printer_myFunc
    (Operand.make OperandTypes.Immediate 0x401000 0) = Some "myFunc" /\
  Printer.opstr (HX := Sample.hex) Sample.printer_myFunc
    (Operand.make OperandTypes.Immediate 0x401004 0)
  = Printer.opstr (HX := Sample.hex) Sample.printer
      (Operand.make OperandTypes.Immediate 0x401004 0).
Proof.
  destruct (define_is_local (HX := Sample.hex) ∅ Sample.reg_name 0x401000
              "myFunc" SymbolTypes.Import
              (Operand.make OperandTypes.Immediate 0x401000 0))
    as [[Hat _] _]; [by left|].
  destruct (define_is_local (HX := Sample.hex) ∅ Sample.reg_name 0x401000
              "myFunc" SymbolTypes.Import
              (Operand.make OperandTypes.Immediate 0x401004 0))
    as [[_ Helse] _]; [by left|].
  split; [apply Hat; reflexivity|apply Helse; vm_compute; discriminate].
Defined.

(** ** [PeFormat::readDescriptor]: frame, failure, and the table it fills *)

Lemma found_substring (pattern s : string) :
  pattern <> "" ->
  found pattern s = true
  <-> exists m : nat, substring m (String.length pattern) s = pattern.
Proof.
  intros Hne. unfold found, non_null.
  destruct (String.index 0 pattern s) as [m|] eqn:Hidx.
  - split; [intros _|done]. exists m. by apply (index_correct1 0).
  - split; [done|]. intros [m Hm].
    by apply (index_correct3 0 m pattern s Hidx Hne (Nat.le_0_l m)) in Hm.
Qed.

Lemma le_value_range (bs : list byte) :
  0 <= le_value bs < 256 ^ Z.of_nat (length bs).
Proof.
  induction bs as [|b bs IH].
  - simpl. lia.
  - cbn [le_value length]. rewrite Nat2Z.inj_succ, Z.pow_succ_r by lia.
    pose proof (Byte.to_N_bounded b). lia.
Qed.

Section ReadDescriptorMore.
Context {EXT : PeExternals}.
Variable T : THUNK.
Variable ordinalflag : Z.
Implicit Types (this : PeFormat.t) (d : ImageImportDescriptor.t).

(** The state [readDescriptor] returns: the variant hint decided by the
    library name, then the definitions of the walk. *)
Lemma readDescriptor_result d this this' :
  PeFormat.readDescriptor T ordinalflag d this = Some this' ->
  exists descriptorname news,
    cstring_at (PeFormat.rawformat this)
      (rvaToOffset (ImageImportDescriptor.Name d)) = Some descriptorname /\
    this' = defining news
              (if found "msvbvm" (transform tolower descriptorname)
               then PeFormat.with_petype PeType.VisualBasic this else this).
Proof.
  unfold PeFormat.readDescriptor, PeFormat.RVA_POINTER. intros Hread.
  destruct (cstring_at _ _) as [descriptorname|] eqn:Hname; [|done].
  cbv beta iota zeta delta [mbind option_bind] in Hread.
  apply walk_defined in Hread as (news & -> & _).
  by exists descriptorname, news.
Qed.

(** A walk that fails has met a read outside the image, provided the fuel
    covers what is left of the image. *)
Lemma walk_fails (fuel : nat) (thunk : Z) (descriptorname : string) d :
  forall (i : Z) this,
    PeFormat.walk T ordinalflag fuel thunk descriptorname d i this = None ->
    size (PeFormat.rawformat this) - (thunk + i * sizeof T)
      < Z.of_nat fuel * sizeof T ->
    exists k : nat,
      (forall j : nat, (j < k)%nat ->
         exists v, PeFormat.thunk_at T this thunk (i + Z.of_nat j) = Some v /\
           v <> 0 /\
           is_Some (PeFormat.importname_of T ordinalflag this descriptorname v)) /\
      (PeFormat.thunk_at T this thunk (i + Z.of_nat k) = None \/
       exists v, PeFormat.thunk_at T this thunk (i + Z.of_nat k) = Some v /\
         v <> 0 /\
         PeFormat.importname_of T ordinalflag this descriptorname v = None).
Proof.
  pose proof (sizeof_pos T) as Hw.
  induction fuel as [|fuel IH]; intros i this Hwalk Hfuel.
  - exists 0%nat. split; [intros j Hj; lia|]. left. rewrite Z.add_0_r.
    unfold PeFormat.thunk_at, read_le.
    assert ((size (PeFormat.rawformat this)
             <? thunk + i * sizeof T + Z.of_nat (Z.to_nat (sizeof T))) = true) as ->.
    { apply Z.ltb_lt. rewrite Z2Nat.id by lia. simpl in Hfuel. lia. }
    by rewrite orb_true_r.
  - simpl in Hwalk.
    destruct (PeFormat.thunk_at T this thunk i) as [v|] eqn:Hv.
    2:{ exists 0%nat. split; [intros j Hj; lia|]. left. by rewrite Z.add_0_r. }
    simpl in Hwalk. destruct (Z.eqb_spec v 0) as [->|Hnz]; [done|].
    destruct (PeFormat.importname_of T ordinalflag this descriptorname v)
      as [importname|] eqn:Hname.
    2:{ exists 0%nat. split; [intros j Hj; lia|]. right. exists v.
        by rewrite Z.add_0_r. }
    simpl in Hwalk. apply IH in Hwalk as (k & Hbefore & Hat).
    + exists (S k). split.
      * intros [|j] Hj.
        -- exists v. rewrite Z.add_0_r. split_and!; [done|done|by eexists].
        -- replace (i + Z.of_nat (S j)) with (i + 1 + Z.of_nat j) by lia.
           apply (Hbefore j). lia.
      * replace (i + Z.of_nat (S k)) with (i + 1 + Z.of_nat k) by lia.
        exact Hat.
    + apply thunk_at_bounds in Hv. simpl PeFormat.rawformat. lia.
Qed.
End ReadDescriptorMore.

(** The table built from a list of definitions holds, at the address of a
    definition that no later one overwrites, that definition. *)
Lemma symboltable_lookup (this : PeFormat.t) (k : nat) (sym : Symbol.t) :
  PeFormat.defined this !! k = Some sym ->
  (forall (j : nat) sym', (k < j)%nat -> PeFormat.defined this !! j = Some sym' ->
     Symbol.address sym' <> Symbol.address sym) ->
  PeFormat.symboltable this !! Symbol.address sym = Some sym.
Proof.
  unfold PeFormat.symboltable. generalize (PeFormat.defined this) as l.
  induction l as [|x l IH] using rev_ind; intros Hk Hlater; [done|].
  rewrite foldl_app. simpl. unfold SymbolTable.define at 1.
  apply lookup_app_Some in Hk as [Hk|[Hge Hk]].
  - rewrite lookup_insert_ne.
    + apply IH; [done|]. intros j sym' Hj Hsym'.
      apply (Hlater j sym' Hj). by apply lookup_app_l_Some.
    + apply (Hlater (length l) x).
      * by apply lookup_lt_Some in Hk.
      * by apply list_lookup_middle.
  - apply list_lookup_singleton_Some in Hk as [_ <-].
    rewrite lookup_insert_eq. by destruct x.
Qed.

(** X22. [readDescriptor] leaves the image and the image base alone, keeps
    every definition made before it, in place, and adds only symbols of kind
    Import. *)
Theorem readDescriptor_frame {EXT : PeExternals} (T : THUNK) (ordinalflag : Z)
    (d : ImageImportDescriptor.t) (this this' : PeFormat.t) :
  PeFormat.readDescriptor T ordinalflag d this = Some this' ->
  PeFormat.rawformat this' = PeFormat.rawformat this /\
  PeFormat._imagebase this' = PeFormat._imagebase this /\
  (forall (k : nat) sym, PeFormat.defined this !! k = Some sym ->
     PeFormat.defined this' !! k = Some sym) /\
  (forall (k : nat) sym, (length (PeFormat.defined this) <= k)%nat ->
     PeFormat.defined this' !! k = Some sym ->
     Symbol.type sym = SymbolTypes.Import).
Proof.
  intros Hread. pose proof Hread as Hres.
  apply readDescriptor_result in Hres as (dn & news & _ & ->).
  apply readDescriptor_defined in Hread as (dn' & news' & _ & Hdef & Hnews & _).
  split_and!.
  - by destruct (found _ _).
  - by destruct (found _ _).
  - intros k sym Hk. rewrite Hdef. by apply lookup_app_l_Some.
  - intros k sym Hge Hk. rewrite Hdef, lookup_app_r in Hk by done.
    by destruct (Hnews _ _ Hk) as (v & _ & _ & _ & _ & Hty).
Qed.

Lemma readDescriptor_frame_witness :
  PeFormat.rawformat SampleImage.pe32_imports = PeFormat.rawformat SampleImage.pe32 /\
  PeFormat._imagebase SampleImage.pe32_imports = PeFormat._imagebase SampleImage.pe32.
Proof.
  destruct (readDescriptor_frame (EXT := SampleImage.externals) ImageThunkData32
              SampleImage.IMAGE_ORDINAL_FLAG32 SampleImage.descriptor32
              SampleImage.pe32 SampleImage.pe32_imports) as (Hraw & Hbase & _).
  - vm_compute. reflexivity.
  - by split.
Defined.

(** X23. [readDescriptor] marks the image as Visual Basic exactly when the
    library name, put in lower case, has [msvbvm] somewhere in it; otherwise
    the variant hint stays what it was. *)
Theorem readDescriptor_petype {EXT : PeExternals} (T : THUNK) (ordinalflag : Z)
    (d : ImageImportDescriptor.t) (this this' : PeFormat.t) :
  PeFormat.readDescriptor T ordinalflag d this = Some this' ->
  exists descriptorname,
    cstring_at (PeFormat.rawformat this)
      (rvaToOffset (ImageImportDescriptor.Name d)) = Some descriptorname /\
    ((exists m : nat,
        substring m 6 (transform tolower descriptorname) = "msvbvm") ->
     PeFormat._petype this' = PeType.VisualBasic) /\
    ((forall m : nat,
        substring m 6 (transform tolower descriptorname) <> "msvbvm") ->
     PeFormat._petype this' = PeFormat._petype this).
Proof.
  intros Hread.
  apply readDescriptor_result in Hread as (dn & news & Hname & ->).
  exists dn. split; [done|].
  pose proof (found_substring "msvbvm" (transform tolower dn)) as Hfound.
  destruct (found "msvbvm" (transform tolower dn)); simpl; split.
  - done.
  - intros Hnone. destruct Hfound as [[m Hm] _]; [done|done|].
    by apply Hnone in Hm.
  - intros Hsome. apply Hfound in Hsome; done.
  - done.
Qed.

Lemma readDescriptor_petype_witness :
  exists descriptorname,
    cstring_at SampleImage.image_vb 0 = Some descriptorname /\
    ((exists m : nat,
        substring m 6 (transform tolower descriptorname) = "msvbvm") ->
     PeFormat._petype (PeFormat.with_petype PeType.VisualBasic SampleImage.pe_vb)
     = PeType.VisualBasic) /\
    ((forall m : nat,
        substring m 6 (transform tolower descriptorname) <> "msvbvm") ->
     PeFormat._petype (PeFormat.with_petype PeType.VisualBasic SampleImage.pe_vb)
     = PeFormat._petype SampleImage.pe_vb).
Proof.
  apply (readDescriptor_petype (EXT := SampleImage.externals) ImageThunkData32
           SampleImage.IMAGE_ORDINAL_FLAG32 SampleImage.descriptor_vb
           SampleImage.pe_vb).
  vm_compute. reflexivity.
Defined.

(** X24. [readDescriptor] fails only on a read outside the image: when it
    returns nothing, either the library name cannot be read, or there is a
    thunk index [k], all thunks before it being non-zero with readable
    names, at which the thunk itself or the name it points to cannot be
    read.  It never gives up for lack of turns. *)
Theorem readDescriptor_fails_on_bad_read {EXT : PeExternals} (T : THUNK)
    (ordinalflag : Z) (d : ImageImportDescriptor.t) (this : PeFormat.t) :
  PeFormat.readDescriptor T ordinalflag d this = None ->
  let thunk := rvaToOffset (selected_thunks d) in
  cstring_at (PeFormat.rawformat this)
    (rvaToOffset (ImageImportDescriptor.Name d)) = None \/
  exists (descriptorname : string) (k : nat),
    cstring_at (PeFormat.rawformat this)
      (rvaToOffset (ImageImportDescriptor.Name d)) = Some descriptorname /\
    (forall j : nat, (j < k)%nat ->
       exists v, PeFormat.thunk_at T this thunk (Z.of_nat j) = Some v /\ v <> 0 /\
         is_Some (PeFormat.importname_of T ordinalflag this
                    (transform tolower descriptorname) v)) /\
    (PeFormat.thunk_at T this thunk (Z.of_nat k) = None \/
     exists v, PeFormat.thunk_at T this thunk (Z.of_nat k) = Some v /\ v <> 0 /\
       PeFormat.importname_of T ordinalflag this
         (transform tolower descriptorname) v = None).
Proof.
  intros Hread thunk. unfold PeFormat.readDescriptor, PeFormat.RVA_POINTER in Hread.
  destruct (cstring_at _ _) as [dn|] eqn:Hname; [right|by left].
  cbv beta iota zeta delta [mbind option_bind] in Hread.
  assert ((if negb (ImageImportDescriptor.OriginalFirstThunk d =? 0)
           then ImageImportDescriptor.OriginalFirstThunk d
           else ImageImportDescriptor.FirstThunk d) = selected_thunks d) as Hsel.
  { unfold selected_thunks. by destruct (_ =? 0). }
  rewrite Hsel in Hread. fold thunk in Hread.
  exists dn.
  destruct (Z.ltb_spec thunk 0) as [Hneg|Hpos].
  - exists 0%nat. split_and!; [done|intros j Hj; lia|]. left.
    unfold PeFormat.thunk_at, read_le.
    assert ((thunk + Z.of_nat 0 * sizeof T <? 0) = true) as ->; [|done].
    apply Z.ltb_lt. lia.
  - apply walk_fails in Hread as (k & Hbefore & Hat).
    + exists k. split_and!; [done| |].
      * intros j Hj. specialize (Hbefore j Hj). rewrite Z.add_0_l in Hbefore.
        by destruct (found _ _).
      * rewrite Z.add_0_l in Hat. by destruct (found _ _).
    + pose proof (sizeof_pos T).
      assert (PeFormat.rawformat
                (if found "msvbvm" (transform tolower dn)
                 then PeFormat.with_petype PeType.VisualBasic this else this)
              = PeFormat.rawformat this) as -> by (by destruct (found _ _)).
      unfold size. nia.
Qed.

Lemma readDescriptor_fails_on_bad_read_witness :
  PeFormat.readDescriptor (EXT := SampleImage.externals) ImageThunkData32
    SampleImage.IMAGE_ORDINAL_FLAG32
    (ImageImportDescriptor.mk 0 0 0 0x00 0x3e) SampleImage.pe32 = None /\
  (cstring_at SampleImage.image32 0 = None \/
   exists (descriptorname : string) (k : nat),
     cstring_at SampleImage.image32 0 = Some descriptorname /\
     (forall j : nat, (j < k)%nat ->
        exists v,
          PeFormat.thunk_at ImageThunkData32 SampleImage.pe32 0x3e (Z.of_nat j)
            = Some v /\ v <> 0 /\
          is_Some (PeFormat.importname_of (EXT := SampleImage.externals)
                     ImageThunkData32 SampleImage.IMAGE_ORDINAL_FLAG32
                     SampleImage.pe32 (transform tolower descriptorname) v)) /\
     (PeFormat.thunk_at ImageThunkData32 SampleImage.pe32 0x3e (Z.of_nat k) = None \/
      exists v,
        PeFormat.thunk_at ImageThunkData32 SampleImage.pe32 0x3e (Z.of_nat k)
          = Some v /\ v <> 0 /\
        PeFormat.importname_of (EXT := SampleImage.externals) ImageThunkData32
          SampleImage.IMAGE_ORDINAL_FLAG32 SampleImage.pe32
          (transform tolower descriptorname) v = None)).
Proof.
  split; [vm_compute; reflexivity|].
  apply (readDescriptor_fails_on_bad_read (EXT := SampleImage.externals)
           ImageThunkData32 SampleImage.IMAGE_ORDINAL_FLAG32
           (ImageImportDescriptor.mk 0 0 0 0x00 0x3e) SampleImage.pe32).
  vm_compute. reflexivity.
Defined.

(** X25. The symbol table after [readDescriptor], when the slots of the
    first-thunk table do not pass [2^64]: the address of slot [k] holds the
    definition number [k] of this walk, so no import of the descriptor hides
    another and each can be looked up at the address instructions use. *)
Theorem imports_can_be_looked_up {EXT : PeExternals} (T : THUNK)
    (ordinalflag : Z) (d : ImageImportDescriptor.t) (this this' : PeFormat.t)
    (k : nat) (sym : Symbol.t) :
  PeFormat.readDescriptor T ordinalflag d this = Some this' ->
  0 <= PeFormat._imagebase this + ImageImportDescriptor.FirstThunk d ->
  PeFormat._imagebase this + ImageImportDescriptor.FirstThunk d
    + size (PeFormat.defined this') * sizeof T <= 2 ^ 64 ->
  PeFormat.defined this' !! (length (PeFormat.defined this) + k)%nat = Some sym ->
  PeFormat.symboltable this'
    !! (PeFormat._imagebase this + ImageImportDescriptor.FirstThunk d
        + Z.of_nat k * sizeof T) = Some sym.
Proof.
  intros Hread Hlow Hhigh Hk. pose proof (sizeof_pos T) as Hw.
  apply readDescriptor_defined in Hread as (dn & news & _ & Hdef & Hnews & _).
  assert (forall (j : nat) s, news !! j = Some s ->
            Symbol.address s
            = PeFormat._imagebase this + ImageImportDescriptor.FirstThunk d
              + Z.of_nat j * sizeof T) as Haddr.
  { intros j s Hj. destruct (Hnews j s Hj) as (v & _ & _ & _ & -> & _).
    rewrite thunk_address_sum. apply to_unsigned_small.
    apply lookup_lt_Some in Hj. unfold size in Hhigh.
    rewrite Hdef, length_app in Hhigh. nia. }
  assert (news !! k = Some sym) as Hsym.
  { rewrite Hdef, lookup_app_r in Hk by lia.
    by replace (length (PeFormat.defined this) + k - length (PeFormat.defined this))%nat
      with k in Hk by lia. }
  rewrite <- (Haddr k sym Hsym).
  apply (symboltable_lookup this' (length (PeFormat.defined this) + k)); [done|].
  intros j sym' Hj Hsym'. rewrite Hdef, lookup_app_r in Hsym' by lia.
  rewrite (Haddr _ _ Hsym'), (Haddr _ _ Hsym). nia.
Qed.

Lemma imports_can_be_looked_up_witness :
  PeFormat.symboltable SampleImage.pe32_imports !! (0x400000 + 0x20 + Z.of_nat 1 * 4)
  = Some (Symbol.mk "kernel32.dll!#0x5" 0x400024 SymbolTypes.Import).
Proof.
  apply (imports_can_be_looked_up (EXT := SampleImage.externals) ImageThunkData32
           SampleImage.IMAGE_ORDINAL_FLAG32 SampleImage.descriptor32
           SampleImage.pe32 SampleImage.pe32_imports 1).
  - vm_compute. reflexivity.
  - vm_compute. discriminate.
  - vm_compute. discriminate.
  - reflexivity.
Defined.

(** X26. Every thunk value the walk reads is a value of the thunk type:
    below [2^32] for 32-bit thunks, below [2^64] for 64-bit ones, so the
    conversions in the flag test lose nothing of it. *)
Theorem thunk_in_range (T : THUNK) (this : PeFormat.t) (thunk i v : Z) :
  PeFormat.thunk_at T this thunk i = Some v ->
  0 <= v < 2 ^ (8 * sizeof T) /\ to_thunk T v = v.
Proof.
  unfold PeFormat.thunk_at, read_le. intros Hread.
  destruct (_ || _); [done|]. injection Hread as <-.
  set (bs := take _ _).
  assert (0 <= le_value bs < 2 ^ (8 * sizeof T)) as Hrange.
  { pose proof (le_value_range bs) as Hbs.
    assert (Z.of_nat (length bs) <= sizeof T) as Hlen.
    { unfold bs. rewrite length_take. pose proof (sizeof_pos T). lia. }
    assert (256 ^ Z.of_nat (length bs) <= 2 ^ (8 * sizeof T)) as Hpow.
    { change 256 with (2 ^ 8). rewrite <- Z.pow_mul_r by lia.
      apply Z.pow_le_mono_r; lia. }
    lia. }
  split; [done|]. unfold to_thunk. by apply to_unsigned_small.
Qed.

Lemma thunk_in_range_witness :
  0 <= 0x80000005 < 2 ^ (8 * sizeof ImageThunkData32) /\
  to_thunk ImageThunkData32 0x80000005 = 0x80000005.
Proof.
  apply (thunk_in_range ImageThunkData32 SampleImage.pe32 0x10 1).
  vm_compute. reflexivity.
Defined.

Section Independence.
Context {EXT : PeExternals}.
Variable T : THUNK.
Variable ordinalflag : Z.
Implicit Types (this that : PeFormat.t) (d : ImageImportDescriptor.t).

(** On the same image and image base, a walk adds the same definitions
    whatever was defined before. *)
Lemma walk_transfer (fuel : nat) (thunk : Z) (descriptorname : string) d :
  forall (i : Z) this that r,
    PeFormat.rawformat that = PeFormat.rawformat this ->
    PeFormat._imagebase that = PeFormat._imagebase this ->
    PeFormat.walk T ordinalflag fuel thunk descriptorname d i this = Some r ->
    PeFormat.walk T ordinalflag fuel thunk descriptorname d i that
    = Some (defining (drop (length (PeFormat.defined this)) (PeFormat.defined r))
              that).
Proof.
  induction fuel as [|fuel IH]; intros i this that r Hraw Hbase Hwalk; [done|].
  simpl in Hwalk |- *.
  assert (PeFormat.thunk_at T that thunk i = PeFormat.thunk_at T this thunk i)
    as -> by (unfold PeFormat.thunk_at; by rewrite Hraw).
  destruct (PeFormat.thunk_at T this thunk i) as [v|]; [|done].
  simpl in Hwalk |- *. destruct (Z.eqb_spec v 0) as [Hz|Hnz].
  - injection Hwalk as <-. rewrite drop_all.
    destruct that. unfold defining. simpl. by rewrite app_nil_r.
  - assert (PeFormat.importname_of T ordinalflag that descriptorname v
            = PeFormat.importname_of T ordinalflag this descriptorname v)
      as -> by (unfold PeFormat.importname_of; by rewrite Hraw).
    destruct (PeFormat.importname_of T ordinalflag this descriptorname v)
      as [importname|]; [|done].
    simpl in Hwalk |- *.
    assert (PeFormat.thunk_address T that d i = PeFormat.thunk_address T this d i)
      as -> by (unfold PeFormat.thunk_address; by rewrite Hbase).
    set (sym := Symbol.mk importname (PeFormat.thunk_address T this d i)
                  SymbolTypes.Import).
    pose proof Hwalk as Hshape. apply walk_defined in Hshape as (news & -> & _).
    rewrite (IH (i + 1)
               (PeFormat.defineSymbol (PeFormat.thunk_address T this d i)
                  importname SymbolTypes.Import this)
               (PeFormat.defineSymbol (PeFormat.thunk_address T this d i)
                  importname SymbolTypes.Import that) _ Hraw Hbase Hwalk).
    f_equal. unfold defining, PeFormat.defineSymbol. simpl.
    f_equal. rewrite drop_app_length, <- !app_assoc. by rewrite drop_app_length.
Qed.
End Independence.

(** X27. What a descriptor defines does not depend on what was defined
    before it, nor on the variant hint: on two states with the same image
    and image base, [readDescriptor] succeeds on both or on neither, and
    appends the same definitions. *)
Theorem readDescriptor_independent {EXT : PeExternals} (T : THUNK)
    (ordinalflag : Z) (d : ImageImportDescriptor.t) (this that this' : PeFormat.t) :
  PeFormat.rawformat that = PeFormat.rawformat this ->
  PeFormat._imagebase that = PeFormat._imagebase this ->
  PeFormat.readDescriptor T ordinalflag d this = Some this' ->
  exists that',
    PeFormat.readDescriptor T ordinalflag d that = Some that' /\
    drop (length (PeFormat.defined that)) (PeFormat.defined that')
    = drop (length (PeFormat.defined this)) (PeFormat.defined this').
Proof.
  intros Hraw Hbase Hread.
  unfold PeFormat.readDescriptor, PeFormat.RVA_POINTER in *. rewrite Hraw.
  destruct (cstring_at _ _) as [dn|]; [|done].
  cbv beta iota zeta delta [mbind option_bind] in Hread |- *.
  set (this1 := if found _ _ then _ else this) in Hread.
  set (that1 := if found _ _ then _ else that).
  assert (PeFormat.rawformat that1 = PeFormat.rawformat this1) as Hraw1
    by (unfold that1, this1; by destruct (found _ _)).
  assert (PeFormat._imagebase that1 = PeFormat._imagebase this1) as Hbase1
    by (unfold that1, this1; by destruct (found _ _)).
  rewrite Hraw1.
  rewrite (walk_transfer T ordinalflag _ _ _ _ _ this1 that1 this' Hraw1 Hbase1 Hread).
  eexists. split; [reflexivity|].
  unfold defining. simpl.
  assert (PeFormat.defined that1 = PeFormat.defined that) as ->
    by (unfold that1; by destruct (found _ _)).
  assert (PeFormat.defined this1 = PeFormat.defined this) as ->
    by (unfold this1; by destruct (found _ _)).
  by rewrite drop_app_length.
Qed.

Lemma readDescriptor_independent_witness :
  exists that',
    PeFormat.readDescriptor (EXT := SampleImage.externals) ImageThunkData32
      SampleImage.IMAGE_ORDINAL_FLAG32 SampleImage.descriptor32
      SampleImage.pe32_imports = Some that' /\
    drop (length (PeFormat.defined SampleImage.pe32_imports)) (PeFormat.defined that')
    = drop (length (PeFormat.defined SampleImage.pe32))
        (PeFormat.defined SampleImage.pe32_imports).
Proof.
  apply (readDescriptor_independent (EXT := SampleImage.externals)
           ImageThunkData32 SampleImage.IMAGE_ORDINAL_FLAG32
           SampleImage.descriptor32 SampleImage.pe32 SampleImage.pe32_imports
           SampleImage.pe32_imports); [reflexivity|reflexivity|].
  vm_compute. reflexivity.
Defined.
